(** * The particle engine of [script.js] ([createParticleEngine])

    A shallow embedding of the canvas particle engine and of the part of
    the browser it acts on, followed by the properties of the
    specification that concern it.

    Numbers.  A JavaScript number is an IEEE-754 double; every finite
    double is a rational, and the embedding computes in [Q] with the
    operations of the source, without rounding.  The engine divides only
    by the literals 16 and 180, by [dist] (guarded by [|| 1]) and by
    [logicalW]/[logicalH] (at least 1 by [resizeCanvas]), so no infinity
    and no NaN arises from the arithmetic itself.

    Objects.  The particles are JavaScript objects held by reference in
    the array [parts]: the embedding keeps them in a store ([objs]) and
    [parts] holds references, so that the in-place mutation of the loop
    variable [p] and [parts.indexOf(p)] mean what they mean in the
    source.  Ripples and flares are reached only through their own
    array and are kept by value.

    Host.  [Math.sin], [Math.cos], [Math.hypot] are implementation
    approximated in ECMAScript and [Math.random] is uncontrolled: they
    are fields of a [Host], together with the constant
    [prefersReduced].  The globals the engine reads live ([logicalW],
    [logicalH], [mouse], [particlesToggle.checked], the two optional
    leaf images) form an [Env]. *)

From Stdlib Require Import QArith Qabs Qround Lqa Lia List String Bool ZArith PArith.
Import ListNotations.

Local Open Scope string_scope.
Local Open Scope list_scope.
Local Open Scope Q_scope.

(** ** Numbers *)

(** [a < b] and [a > b] on numbers, as booleans. *)
Definition ltb (a b : Q) : bool := negb (Qle_bool b a).
Definition gtb (a b : Q) : bool := ltb b a.
(** [a <= b]. *)
Definition leb (a b : Q) : bool := Qle_bool a b.

Module Math.
Definition min (a b : Q) : Q := if Qle_bool a b then a else b.
Definition max (a b : Q) : Q := if Qle_bool a b then b else a.
Definition floor (a : Q) : Q := inject_Z (Qfloor a).
(** [Math.PI], by its decimal rendering. *)
Definition PI : Q := 3.141592653589793.
End Math.

(** [v || d] on numbers: [0] is the falsy number. *)
Definition or_num (v d : Q) : Q := if Qeq_bool v 0 then d else v.

(** [function clamp(v, a, b) { return Math.max(a, Math.min(b, v)); }] *)
Definition clamp (v a b : Q) : Q := Math.max a (Math.min b v).

(** ** Data *)

(** The values of [p.type]. *)
Inductive Kind := dot | petal | dust | leaf | rain | mist | dewdrop | snow | ember.

Definition Kind_eqb (a b : Kind) : bool :=
  match a, b with
  | dot, dot | petal, petal | dust, dust | leaf, leaf | rain, rain
  | mist, mist | dewdrop, dewdrop | snow, snow | ember, ember => true
  | _, _ => false
  end.

Module Particle.
Record t := mk {
  x : Q; y : Q; vx : Q; vy : Q; r : Q;
  ang : Q; spin : Q; type : Kind; alpha : Q;
  color : string; z : Q }.

Definition set_x (v : Q) (p : t) : t :=
  mk v (y p) (vx p) (vy p) (r p) (ang p) (spin p) (type p) (alpha p) (color p) (z p).
Definition set_y (v : Q) (p : t) : t :=
  mk (x p) v (vx p) (vy p) (r p) (ang p) (spin p) (type p) (alpha p) (color p) (z p).
Definition set_vx (v : Q) (p : t) : t :=
  mk (x p) (y p) v (vy p) (r p) (ang p) (spin p) (type p) (alpha p) (color p) (z p).
Definition set_vy (v : Q) (p : t) : t :=
  mk (x p) (y p) (vx p) v (r p) (ang p) (spin p) (type p) (alpha p) (color p) (z p).
Definition set_r (v : Q) (p : t) : t :=
  mk (x p) (y p) (vx p) (vy p) v (ang p) (spin p) (type p) (alpha p) (color p) (z p).
Definition set_ang (v : Q) (p : t) : t :=
  mk (x p) (y p) (vx p) (vy p) (r p) v (spin p) (type p) (alpha p) (color p) (z p).
Definition set_spin (v : Q) (p : t) : t :=
  mk (x p) (y p) (vx p) (vy p) (r p) (ang p) v (type p) (alpha p) (color p) (z p).
Definition set_type (v : Kind) (p : t) : t :=
  mk (x p) (y p) (vx p) (vy p) (r p) (ang p) (spin p) v (alpha p) (color p) (z p).
Definition set_alpha (v : Q) (p : t) : t :=
  mk (x p) (y p) (vx p) (vy p) (r p) (ang p) (spin p) (type p) v (color p) (z p).
Definition set_color (v : string) (p : t) : t :=
  mk (x p) (y p) (vx p) (vy p) (r p) (ang p) (spin p) (type p) (alpha p) v (z p).
End Particle.

Module Ripple.
(** [{ x, y, r: 2, alpha: 0.35 }] *)
Record t := mk { x : Q; y : Q; r : Q; alpha : Q }.
End Ripple.

Module Flare.
(** [{ x, y, r, t, speed }] *)
Record t := mk { x : Q; y : Q; r : Q; t_ : Q; speed : Q }.
End Flare.

Module Mouse.
(** [const mouse = { x: 0, y: 0, vx: 0, vy: 0, down: false }] *)
Record t := mk { x : Q; y : Q; vx : Q; vy : Q; down : bool }.
End Mouse.

(** What the engine paints, in the order painted since the last
    [ctx.clearRect(0, 0, logicalW, logicalH)]. *)
Inductive DrawCmd :=
  | FlareGlow (cx cy r : Q)
  | Shape (k : Kind) (x y alpha : Q)
  | LeafImage (second : bool) (x y r : Q)
  | RippleRing (x y r alpha : Q).

(** The host: the implementation-approximated functions of [Math], the
    successive results of [Math.random()], and the constant
    [prefersReduced] read once when the script starts. *)
Record Host := {
  Math_sin : Q -> Q;
  Math_cos : Q -> Q;
  Math_hypot : Q -> Q -> Q;
  Math_random : nat -> Q;
  prefersReduced : bool }.

(** The globals the engine reads each time it runs.  [resizeCanvas]
    keeps [logicalW] and [logicalH] integers that are at least 1. *)
Record Env := {
  width : positive;
  height : positive;
  mouse : Mouse.t;
  particlesToggle_checked : bool;
  images_leaf1 : bool;
  images_leaf2 : bool }.

Definition logicalW (env : Env) : Q := inject_Z (Z.pos (width env)).
Definition logicalH (env : Env) : Q := inject_Z (Z.pos (height env)).

(** A reference to a particle object: its index in the store. *)
Definition ref := nat.

(** The closure variables of [createParticleEngine] and the browser
    state the engine acts on. *)
Record State := mkState {
  (* let parts = [], ripples = [], flares = []; *)
  parts : list ref;
  ripples : list Ripple.t;
  flares : list Flare.t;
  (* let running = true, mode = ..., last = performance.now(); let rafId = null; *)
  running : bool;
  mode : string;
  last : Q;
  rafId : option positive;
  (* the particle objects allocated so far *)
  objs : list Particle.t;
  (* how many times Math.random() has been called *)
  rng : nat;
  (* the canvas *)
  canvas : list DrawCmd;
  (* the animation frames requested and neither run nor cancelled,
     and the handle the next request returns *)
  frames : list positive;
  next_frame : positive }.

Definition set_parts v s := mkState v (ripples s) (flares s) (running s) (mode s) (last s) (rafId s) (objs s) (rng s) (canvas s) (frames s) (next_frame s).
Definition set_ripples v s := mkState (parts s) v (flares s) (running s) (mode s) (last s) (rafId s) (objs s) (rng s) (canvas s) (frames s) (next_frame s).
Definition set_flares v s := mkState (parts s) (ripples s) v (running s) (mode s) (last s) (rafId s) (objs s) (rng s) (canvas s) (frames s) (next_frame s).
Definition set_running v s := mkState (parts s) (ripples s) (flares s) v (mode s) (last s) (rafId s) (objs s) (rng s) (canvas s) (frames s) (next_frame s).
Definition set_mode v s := mkState (parts s) (ripples s) (flares s) (running s) v (last s) (rafId s) (objs s) (rng s) (canvas s) (frames s) (next_frame s).
Definition set_last v s := mkState (parts s) (ripples s) (flares s) (running s) (mode s) v (rafId s) (objs s) (rng s) (canvas s) (frames s) (next_frame s).
Definition set_rafId v s := mkState (parts s) (ripples s) (flares s) (running s) (mode s) (last s) v (objs s) (rng s) (canvas s) (frames s) (next_frame s).
Definition set_objs v s := mkState (parts s) (ripples s) (flares s) (running s) (mode s) (last s) (rafId s) v (rng s) (canvas s) (frames s) (next_frame s).
Definition set_rng v s := mkState (parts s) (ripples s) (flares s) (running s) (mode s) (last s) (rafId s) (objs s) v (canvas s) (frames s) (next_frame s).
Definition set_canvas v s := mkState (parts s) (ripples s) (flares s) (running s) (mode s) (last s) (rafId s) (objs s) (rng s) v (frames s) (next_frame s).
Definition set_frames v s := mkState (parts s) (ripples s) (flares s) (running s) (mode s) (last s) (rafId s) (objs s) (rng s) (canvas s) v (next_frame s).
Definition set_next_frame v s := mkState (parts s) (ripples s) (flares s) (running s) (mode s) (last s) (rafId s) (objs s) (rng s) (canvas s) (frames s) v.

(** ** Arrays *)

(** [a[i] = v] for an index of the array. *)
Fixpoint set_nth {A : Type} (i : nat) (v : A) (l : list A) : list A :=
  match l, i with
  | [], _ => []
  | _ :: l', O => v :: l'
  | a :: l', S i' => a :: set_nth i' v l'
  end.

(** [a.splice(i, 1)]. *)
Fixpoint splice1 {A : Type} (i : nat) (l : list A) : list A :=
  match l, i with
  | [], _ => []
  | _ :: l', O => l'
  | a :: l', S i' => a :: splice1 i' l'
  end.

(** [parts.indexOf(p)]: the first index holding the same object;
    [None] stands for -1. *)
Fixpoint indexOf (p : ref) (l : list ref) : option nat :=
  match l with
  | [] => None
  | q :: l' => if Nat.eqb q p then Some O
               else match indexOf p l' with
                    | Some j => Some (S j)
                    | None => None
                    end
  end.

(** ** Sequencing *)

(** The statements of the engine read and write the state in order. *)
Definition M (A : Type) : Type := State -> A * State.

Definition ret {A : Type} (a : A) : M A := fun s => (a, s).
Definition bind {A B : Type} (c : M A) (k : A -> M B) : M B :=
  fun s => let (a, s') := c s in k a s'.
Definition gets {A : Type} (f : State -> A) : M A := fun s => (f s, s).
Definition modify (f : State -> State) : M unit := fun s => (tt, f s).
Definition exec {A : Type} (c : M A) (s : State) : State := snd (c s).
Definition eval {A : Type} (c : M A) (s : State) : A := fst (c s).

Notation "x <- c ;; k" := (bind c (fun x => k))
  (at level 61, c at next level, right associativity).
Notation "c ;;; k" := (bind c (fun _ => k))
  (at level 61, right associativity).

(** [for (let i = 0; i < n; i++) body(i)], for a count [n] known
    before the loop. *)
Fixpoint for_upto (n : nat) (body : nat -> M unit) : M unit :=
  match n with
  | O => ret tt
  | S n' => for_upto n' body ;;; body n'
  end.

(** ** Property lookup in [maxCounts] *)

(** What [maxCounts[mode]] can be: a count of its own, a member
    inherited from [Object.prototype] (a function, or the prototype
    object itself for [__proto__]), or [undefined]. *)
Inductive Lookup := Own (n : nat) | Inherited | Undefined.

Definition Object_prototype_keys : list string :=
  ["constructor"; "hasOwnProperty"; "isPrototypeOf"; "propertyIsEnumerable";
   "toLocaleString"; "toString"; "valueOf"; "__proto__";
   "__defineGetter__"; "__defineSetter__"; "__lookupGetter__";
   "__lookupSetter__"]%string.

(** [const maxCounts = { spring: 110, summer: 100, monsoon: 140,
    autumn: 120, winter: 90, prewinter: 90 };] *)
Definition maxCounts (k : string) : Lookup :=
  if String.eqb k "spring" then Own 110
  else if String.eqb k "summer" then Own 100
  else if String.eqb k "monsoon" then Own 140
  else if String.eqb k "autumn" then Own 120
  else if String.eqb k "winter" then Own 90
  else if String.eqb k "prewinter" then Own 90
  else if existsb (String.eqb k) Object_prototype_keys then Inherited
  else Undefined.

(** The number of turns of [for (let i = 0; i < count; i++)] in [init]
    for [count = maxCounts[mode] || 90]: a count of its own is used
    unless it is 0, [undefined] gives 90, and an inherited member is
    truthy but compares as NaN, so that [i < count] is false at once. *)
Definition init_count (v : Lookup) : nat :=
  match v with
  | Own n => if Nat.eqb n 0 then 90%nat else n
  | Inherited => 0%nat
  | Undefined => 90%nat
  end.

(** The number of turns of [for (let i = 0; i < n; i++)] for a number
    [n]: the naturals below [n]. *)
Definition turns (n : Q) : nat := Z.to_nat (Qceiling n).

(** ** The engine *)

Section Engine.

Variable host : Host.
Variable env : Env.

Let W : Q := logicalW env.
Let H : Q := logicalH env.

(** [Math.random()] *)
Definition random : M Q :=
  fun s => (Math_random host (rng s), set_rng (S (rng s)) s).

(** [function rnd(a, b) { return Math.random() * (b - a) + a; }] *)
Definition rnd (a b : Q) : M Q :=
  u <- random ;; ret (u * (b - a) + a).

(** A new object in the store. *)
Definition alloc (v : Particle.t) : M ref :=
  fun s => (List.length (objs s), set_objs (objs s ++ [v]) s).

(** Writing the fields of the object [p]. *)
Definition store (p : ref) (v : Particle.t) : M unit :=
  modify (fun s => set_objs (set_nth p v (objs s)) s).

(** [ctx.clearRect(0, 0, logicalW, logicalH)] *)
Definition clearRect : M unit := modify (set_canvas []).

Definition paint (c : DrawCmd) : M unit :=
  modify (fun s => set_canvas (canvas s ++ [c]) s).

(** [requestAnimationFrame(step)] and [cancelAnimationFrame(h)] *)
Definition requestAnimationFrame : M positive :=
  fun s => (next_frame s,
            set_next_frame (Pos.succ (next_frame s))
              (set_frames (frames s ++ [next_frame s]) s)).

Definition cancelAnimationFrame (h : positive) : M unit :=
  modify (fun s => set_frames (filter (fun k => negb (Pos.eqb k h)) (frames s)) s).

(** The object [newParticle] builds, by the active [mode]. *)
Definition newParticle_object : M Particle.t :=
  x0 <- rnd 0 W ;;
  y0 <- rnd (-60) (H + 60) ;;
  ang0 <- rnd 0 (Math.PI * 2) ;;
  spin0 <- rnd (-0.05) 0.05 ;;
  z0 <- rnd 0.4 1.2 ;;
  let p := Particle.mk x0 y0 0 0 1 ang0 spin0 dot 1 "#fff" z0 in
  m <- gets mode ;;
  if String.eqb m "spring" then
    r1 <- rnd 3.5 7.5 ;;
    vx1 <- rnd (-0.28) 0.35 ;;
    vy1 <- rnd 0.18 0.55 ;;
    spin1 <- rnd (-0.06) 0.06 ;;
    ret (Particle.set_spin spin1 (Particle.set_color "rgba(255,140,170,0.96)"
          (Particle.set_vy vy1 (Particle.set_vx vx1 (Particle.set_r r1
          (Particle.set_type petal p))))))
  else if String.eqb m "summer" then
    u <- random ;;
    if ltb u 0.12 then
      r1 <- rnd 6 12 ;;
      vx1 <- rnd 0.1 0.6 ;;
      vy1 <- rnd 0.05 0.25 ;;
      spin1 <- rnd (-0.2) 0.2 ;;
      ret (Particle.set_spin spin1 (Particle.set_color "rgba(255,180,90,0.95)"
            (Particle.set_vy vy1 (Particle.set_vx vx1 (Particle.set_r r1
            (Particle.set_type leaf p))))))
    else
      r1 <- rnd 0.8 2.8 ;;
      vx1 <- rnd 0.05 0.45 ;;
      vy1 <- rnd (-0.02) 0.18 ;;
      a1 <- rnd 0.35 0.9 ;;
      ret (Particle.set_alpha a1 (Particle.set_color "rgba(255,205,110,0.9)"
            (Particle.set_vy vy1 (Particle.set_vx vx1 (Particle.set_r r1
            (Particle.set_type dust p))))))
  else if String.eqb m "monsoon" then
    r1 <- rnd 1.0 1.6 ;;
    vx1 <- rnd (-0.25) 0.2 ;;
    vy1 <- rnd 0.65 1.4 ;;
    ret (Particle.set_color "rgba(170,210,240,0.98)"
          (Particle.set_vy vy1 (Particle.set_vx vx1 (Particle.set_r r1
          (Particle.set_type rain p)))))
  else if String.eqb m "autumn" then
    r1 <- rnd 6 13 ;;
    vx1 <- rnd (-0.6) 0.45 ;;
    vy1 <- rnd 0.25 0.7 ;;
    spin1 <- rnd (-0.3) 0.3 ;;
    ret (Particle.set_spin spin1 (Particle.set_color "rgba(255,170,80,0.98)"
          (Particle.set_vy vy1 (Particle.set_vx vx1 (Particle.set_r r1
          (Particle.set_type leaf p))))))
  else if String.eqb m "prewinter" then
    u <- random ;;
    if ltb u 0.25 then
      r1 <- rnd 60 140 ;;
      vx1 <- rnd 0.02 0.12 ;;
      vy1 <- rnd (-0.02) 0.04 ;;
      a1 <- rnd 0.05 0.12 ;;
      ret (Particle.set_alpha a1 (Particle.set_vy vy1 (Particle.set_vx vx1
            (Particle.set_r r1 (Particle.set_type mist p)))))
    else
      r1 <- rnd 1.4 3.6 ;;
      vx1 <- rnd (-0.2) 0.2 ;;
      vy1 <- rnd 0.08 0.35 ;;
      ret (Particle.set_color "rgba(220,240,255,0.96)"
            (Particle.set_vy vy1 (Particle.set_vx vx1 (Particle.set_r r1
            (Particle.set_type dewdrop p)))))
  else
    u <- random ;;
    if ltb u 0.12 then
      r1 <- rnd 1.2 2.4 ;;
      vx1 <- rnd (-0.05) 0.05 ;;
      vy1 <- rnd (-0.06) (-0.02) ;;
      ret (Particle.set_color "rgba(255,120,60,0.9)"
            (Particle.set_vy vy1 (Particle.set_vx vx1 (Particle.set_r r1
            (Particle.set_type ember p)))))
    else
      r1 <- rnd 1.4 3.8 ;;
      vx1 <- rnd (-0.2) 0.2 ;;
      vy1 <- rnd 0.08 0.32 ;;
      ret (Particle.set_color "rgba(240,248,255,0.96)"
            (Particle.set_vy vy1 (Particle.set_vx vx1 (Particle.set_r r1
            (Particle.set_type snow p))))).

(** [function newParticle()]: the reference to the new object. *)
Definition newParticle : M ref :=
  v <- newParticle_object ;; alloc v.

(** [function init(count)]: [parts = []] and [count] pushes. *)
Definition init (count : nat) : M unit :=
  modify (set_parts []) ;;;
  for_upto count (fun _ =>
    q <- newParticle ;;
    modify (fun s => set_parts (parts s ++ [q]) s)).

(** [function reflow()] *)
Definition reflow_object (v : Particle.t) : Particle.t :=
  let v1 := Particle.set_x (clamp (Particle.x v / W * W) 0 W) v in
  Particle.set_y (clamp (Particle.y v1 / H * H) (-50) (H + 50)) v1.

Fixpoint reflow_from (ps : list ref) : M unit :=
  match ps with
  | [] => ret tt
  | p :: ps' =>
      o <- gets objs ;;
      match nth_error o p with
      | Some v => store p (reflow_object v)
      | None => ret tt
      end ;;;
      reflow_from ps'
  end.

Definition reflow : M unit :=
  ps <- gets parts ;; reflow_from ps.

(** [function setMode(m)] *)
Definition setMode (m : string) : M unit :=
  modify (set_mode m) ;;;
  md <- gets mode ;;
  init (init_count (maxCounts md)) ;;;
  modify (set_flares []) ;;;
  md <- gets mode ;;
  if String.eqb md "summer" then
    u <- rnd 0 2 ;;
    let n := 2 + Math.floor u in
    for_upto (turns n) (fun _ =>
      fx <- rnd 0 W ;;
      fy <- rnd 0 (H * 0.6) ;;
      fr <- rnd 120 240 ;;
      ft <- rnd 0 (Math.PI * 2) ;;
      fs <- rnd 0.0002 0.0005 ;;
      modify (fun s => set_flares (flares s ++ [Flare.mk fx fy fr ft fs]) s))
  else ret tt.

(** [function addRipple(x, y)] *)
Definition addRipple (x y : Q) : M unit :=
  modify (fun s => set_ripples (ripples s ++ [Ripple.mk x y 2 0.35]) s).

(** [function drawFlare(f)]: paints, then advances [f.t]. *)
Definition drawFlare (f : Flare.t) : M Flare.t :=
  let cx := Flare.x f + Math_cos host (Flare.t_ f) * 120 in
  let cy := Flare.y f + Math_sin host (Flare.t_ f) * 60 in
  paint (FlareGlow cx cy (Flare.r f)) ;;;
  ret (Flare.mk (Flare.x f) (Flare.y f) (Flare.r f)
         (Flare.t_ f + Flare.speed f * (if prefersReduced host then 0 else 1))
         (Flare.speed f)).

Fixpoint drawFlares (fs : list Flare.t) : M (list Flare.t) :=
  match fs with
  | [] => ret []
  | f :: fs' => f' <- drawFlare f ;; r <- drawFlares fs' ;; ret (f' :: r)
  end.

(** *** One tick: the body of [for (const p of parts)] *)

(** Mouse wind interaction. *)
Definition influence (dist : Q) : Q :=
  if particlesToggle_checked env && negb (prefersReduced host)
  then Math.max 0 (1 - dist / 180) else 0.

Definition mouse_dist (v : Particle.t) : Q :=
  let dx := Particle.x v - Mouse.x (mouse env) in
  let dy := Particle.y v - Mouse.y (mouse env) in
  or_num (Math_hypot host dx dy) 1.

Definition mouse_wind (v : Particle.t) : Particle.t :=
  let dx := Particle.x v - Mouse.x (mouse env) in
  let dy := Particle.y v - Mouse.y (mouse env) in
  let dist := mouse_dist v in
  let infl := influence dist in
  let v1 := Particle.set_vx
              (Particle.vx v + ((- dx) / dist * 0.04 * infl
                                + Mouse.vx (mouse env) * 0.002 * infl)) v in
  Particle.set_vy
    (Particle.vy v1 + ((- dy) / dist * 0.02 * infl
                       + Mouse.vy (mouse env) * 0.002 * infl)) v1.

(** Season forces. *)
Definition season_forces (m : string) (now dt : Q) (v : Particle.t) : Particle.t :=
  if String.eqb m "spring" then
    let v1 := Particle.set_vx
                (Particle.vx v + Math_sin host (Particle.ang v * 0.7 + now * 0.0005) * 0.01) v in
    let v2 := Particle.set_vy (Particle.vy v1 + 0.006 * (dt / 16)) v1 in
    Particle.set_ang (Particle.ang v2 + Particle.spin v2 * 0.01) v2
  else if String.eqb m "summer" then
    let v1 := Particle.set_vx
                (Particle.vx v + Math_sin host (Particle.y v / H * 6 + now * 0.0008) * 0.02) v in
    Particle.set_vy (Particle.vy v1 + 0.002 * (dt / 16)) v1
  else if String.eqb m "monsoon" then
    let v1 := Particle.set_vx
                (Particle.vx v + Math_sin host (now * 0.001 + Particle.x v / W * 12) * 0.06) v in
    Particle.set_vy (Particle.vy v1 + 0.02 * (dt / 16)) v1
  else if String.eqb m "autumn" then
    let v1 := Particle.set_vx
                (Particle.vx v + Math_sin host (Particle.y v / H * 8 + Particle.ang v) * 0.035) v in
    let v2 := Particle.set_vy (Particle.vy v1 + 0.008 * (dt / 16)) v1 in
    Particle.set_ang (Particle.ang v2 + Particle.spin v2 * 0.018) v2
  else if String.eqb m "prewinter" then
    if Kind_eqb (Particle.type v) mist
    then Particle.set_vx (Particle.vx v + 0.004) v
    else Particle.set_vy (Particle.vy v + 0.004 * (dt / 16)) v
  else if String.eqb m "winter" then
    let v1 := if Kind_eqb (Particle.type v) ember
              then Particle.set_vy (Particle.vy v - 0.006 * (dt / 16)) v
              else Particle.set_vy (Particle.vy v + 0.004 * (dt / 16)) v in
    Particle.set_vx
      (Particle.vx v1 + Math_sin host (now * 0.0006 + Particle.y v1 * 0.02) * 0.006) v1
  else v.

(** Damping and integration. *)
Definition damping (v : Particle.t) : Particle.t :=
  let v1 := Particle.set_vx (Particle.vx v * 0.995) v in
  Particle.set_vy (Particle.vy v1 * 0.997) v1.

Definition integration (dt : Q) (v : Particle.t) : Particle.t :=
  let v1 := Particle.set_x (Particle.x v + Particle.vx v * (dt / 16) * Particle.z v) v in
  Particle.set_y (Particle.y v1 + Particle.vy v1 * (dt / 16) * Particle.z v1) v1.

(** The fields of [p] when the drawing starts. *)
Definition physics (m : string) (now dt : Q) (v : Particle.t) : Particle.t :=
  integration dt (damping (season_forces m now dt (mouse_wind v))).

(** Draw: one shape per type; a leaf draws [Math.random()] to choose
    between the two images, and rain at the bottom adds a ripple. *)
Definition draw (v : Particle.t) : M unit :=
  match Particle.type v with
  | leaf =>
      u <- random ;;
      let second := negb (ltb u 0.5) in
      if (if second then images_leaf2 env else images_leaf1 env)
      then paint (LeafImage second (Particle.x v) (Particle.y v) (Particle.r v))
      else paint (Shape leaf (Particle.x v) (Particle.y v) (Particle.alpha v))
  | rain =>
      paint (Shape rain (Particle.x v) (Particle.y v) (Particle.alpha v)) ;;;
      if gtb (Particle.y v) (H - 2)
      then addRipple (Particle.x v) (H - 3)
      else ret tt
  | k => paint (Shape k (Particle.x v) (Particle.y v) (Particle.alpha v))
  end.

(** [p.y > logicalH + 80 || p.x < -140 || p.x > logicalW + 140 || p.y < -140] *)
Definition offscreen (v : Particle.t) : bool :=
  gtb (Particle.y v) (H + 80) || ltb (Particle.x v) (-140)
  || gtb (Particle.x v) (W + 140) || ltb (Particle.y v) (-140).

(** Recycle particles that go off-screen: [parts[idx] = newParticle()]
    with [idx = parts.indexOf(p)], then the two writes through
    [parts[idx]].  For [idx = -1] the assignment would set the property
    ["-1"] and leave the elements as they are. *)
Definition recycle (p : ref) : M unit :=
  ps <- gets parts ;;
  let idx := indexOf p ps in
  q <- newParticle ;;
  match idx with
  | Some j => modify (set_parts (set_nth j q ps))
  | None => ret tt
  end ;;;
  u1 <- random ;;
  o1 <- gets objs ;;
  match nth_error o1 q with
  | Some v => store q (Particle.set_x (u1 * W) v)
  | None => ret tt
  end ;;;
  u2 <- random ;;
  o2 <- gets objs ;;
  match nth_error o2 q with
  | Some v => store q (Particle.set_y (-10 - u2 * 40) v)
  | None => ret tt
  end.

(** The turn of the loop that visits [parts[i]]. *)
Definition visit (now dt : Q) (i : nat) : M unit :=
  ps <- gets parts ;;
  match nth_error ps i with
  | None => ret tt
  | Some p =>
      o <- gets objs ;;
      match nth_error o p with
      | None => ret tt
      | Some v =>
          m <- gets mode ;;
          let v' := physics m now dt v in
          store p v' ;;;
          draw v' ;;;
          if offscreen v' then recycle p else ret tt
      end
  end.

(** Draw ripples: [for (let i = ripples.length - 1; i >= 0; i--)],
    here for the indices below [k], downwards. *)
Fixpoint ripple_loop (k : nat) : M unit :=
  match k with
  | O => ret tt
  | S i =>
      rs <- gets ripples ;;
      match nth_error rs i with
      | Some rp =>
          paint (RippleRing (Ripple.x rp) (Ripple.y rp) (Ripple.r rp) (Ripple.alpha rp)) ;;;
          let rp' := Ripple.mk (Ripple.x rp) (Ripple.y rp)
                       (Ripple.r rp + 0.9) (Ripple.alpha rp - 0.015) in
          if leb (Ripple.alpha rp') 0
          then modify (set_ripples (splice1 i rs))
          else modify (set_ripples (set_nth i rp' rs))
      | None => ret tt
      end ;;;
      ripple_loop i
  end.

(** [function step(now)] *)
Definition step (now : Q) : M unit :=
  l <- gets last ;;
  let dt := Math.min 40 (now - l) in
  modify (set_last now) ;;;
  run <- gets running ;;
  if negb run then modify (set_rafId None)
  else
    clearRect ;;;
    m <- gets mode ;;
    fs <- gets flares ;;
    (if String.eqb m "summer" && negb (Nat.eqb (List.length fs) 0)
     then fs' <- drawFlares fs ;; modify (set_flares fs')
     else ret tt) ;;;
    ps <- gets parts ;;
    for_upto (List.length ps) (visit now dt) ;;;
    rs <- gets ripples ;;
    ripple_loop (List.length rs) ;;;
    h <- requestAnimationFrame ;;
    modify (set_rafId (Some h)).

(** [function pause()] *)
Definition pause : M unit :=
  modify (set_running false) ;;;
  id <- gets rafId ;;
  match id with
  | Some h => cancelAnimationFrame h ;;; modify (set_rafId None)
  | None => ret tt
  end ;;;
  clearRect.

(** [function resume()]; [tnow] is what [performance.now()] returns. *)
Definition resume (tnow : Q) : M unit :=
  run <- gets running ;;
  if negb (prefersReduced host) && negb run then
    modify (set_running true) ;;;
    modify (set_last tnow) ;;;
    h <- requestAnimationFrame ;;
    modify (set_rafId (Some h))
  else ret tt.

(** [function createParticleEngine(initialMode)]: the closure variables
    are initialised, then [setMode(mode)] and the first request of a
    frame.  An empty [initialMode] is falsy. *)
Definition createParticleEngine (initialMode : string) (tnow : Q) : M unit :=
  modify (set_parts []) ;;; modify (set_ripples []) ;;; modify (set_flares []) ;;;
  modify (set_running true) ;;;
  modify (set_mode (if String.eqb initialMode "" then "prewinter" else initialMode)) ;;;
  modify (set_last tnow) ;;;
  modify (set_rafId None) ;;;
  m <- gets mode ;;
  setMode m ;;;
  h <- requestAnimationFrame ;;
  modify (set_rafId (Some h)).

(** The browser runs the requested frame [h]: the request is consumed
    and [step(now)] is called. *)
Definition frame (h : positive) (now : Q) : M unit :=
  fr <- gets frames ;;
  if existsb (Pos.eqb h) fr then
    modify (fun s => set_frames (filter (fun k => negb (Pos.eqb k h)) (frames s)) s) ;;;
    step now
  else ret tt.

End Engine.

(** A page before the script runs: nothing allocated, drawn or
    requested. *)
Definition blank : State :=
  mkState [] [] [] false "" 0 None [] 0 [] [] 1.

(** * Properties *)

(** ** Sequencing laws *)

Lemma exec_bind {A B : Type} (c : M A) (k : A -> M B) (s : State) :
  exec (bind c k) s = exec (k (eval c s)) (exec c s).
Proof. unfold exec, eval, bind. destruct (c s); reflexivity. Qed.

Lemma eval_bind {A B : Type} (c : M A) (k : A -> M B) (s : State) :
  eval (bind c k) s = eval (k (eval c s)) (exec c s).
Proof. unfold exec, eval, bind. destruct (c s); reflexivity. Qed.

Lemma exec_ret {A : Type} (a : A) (s : State) : exec (ret a) s = s.
Proof. reflexivity. Qed.

Lemma eval_ret {A : Type} (a : A) (s : State) : eval (ret a) s = a.
Proof. reflexivity. Qed.

Lemma exec_gets {A : Type} (f : State -> A) (s : State) : exec (gets f) s = s.
Proof. reflexivity. Qed.

Lemma eval_gets {A : Type} (f : State -> A) (s : State) : eval (gets f) s = f s.
Proof. reflexivity. Qed.

Lemma exec_modify (f : State -> State) (s : State) : exec (modify f) s = f s.
Proof. reflexivity. Qed.

Lemma for_upto_S (n : nat) (body : nat -> M unit) (s : State) :
  exec (for_upto (S n) body) s = exec (body n) (exec (for_upto n body) s).
Proof. simpl. rewrite exec_bind. reflexivity. Qed.

(** ** What a statement leaves alone *)

(** [keeps f c]: running [c] does not change the component [f]. *)
Definition keeps {A X : Type} (f : State -> X) (c : M A) : Prop :=
  forall s, f (exec c s) = f s.

Lemma keeps_ret {A X : Type} (f : State -> X) (a : A) : keeps f (ret a).
Proof. intro s; reflexivity. Qed.

Lemma keeps_gets {A X : Type} (f : State -> X) (g : State -> A) : keeps f (gets g).
Proof. intro s; reflexivity. Qed.

Lemma keeps_bind {A B X : Type} (f : State -> X) (c : M A) (k : A -> M B) :
  keeps f c -> (forall a, keeps f (k a)) -> keeps f (bind c k).
Proof.
  intros Hc Hk s. rewrite exec_bind. rewrite Hk. apply Hc.
Qed.

Lemma keeps_modify {X : Type} (f : State -> X) (g : State -> State) :
  (forall s, f (g s) = f s) -> keeps f (modify g).
Proof. intros Hg s. apply Hg. Qed.

Lemma keeps_for_upto {X : Type} (f : State -> X) (n : nat) (body : nat -> M unit) :
  (forall i, keeps f (body i)) -> keeps f (for_upto n body).
Proof.
  intros Hb. induction n as [|n IH]; intro s.
  - reflexivity.
  - rewrite for_upto_S. rewrite Hb. apply IH.
Qed.

Ltac keeps_step :=
  match goal with
  | |- keeps _ (bind _ _) => apply keeps_bind; [ | intro ]
  | |- keeps _ (ret _) => apply keeps_ret
  | |- keeps _ (gets _) => apply keeps_gets
  | |- keeps _ (modify _) => apply keeps_modify; intro; reflexivity
  | |- keeps _ (for_upto _ _) => apply keeps_for_upto; intro
  | |- keeps _ (if ?b then _ else _) => destruct b
  | |- keeps _ (match ?x with _ => _ end) => destruct x
  end.

Ltac keeps_tac := repeat keeps_step.

Section Footprints.

Variable host : Host.
Variable env : Env.

Lemma keeps_random {X : Type} (f : State -> X) :
  (forall v s, f (set_rng v s) = f s) -> keeps f (random host).
Proof. intros Hf s. unfold exec, random; simpl. apply Hf. Qed.

Lemma keeps_rnd {X : Type} (f : State -> X) (a b : Q) :
  (forall v s, f (set_rng v s) = f s) -> keeps f (rnd host a b).
Proof.
  intros Hf. unfold rnd. apply keeps_bind; [ apply keeps_random, Hf | intro; apply keeps_ret ].
Qed.

(** The factory only draws random numbers. *)
Lemma keeps_newParticle_object {X : Type} (f : State -> X) :
  (forall v s, f (set_rng v s) = f s) -> keeps f (newParticle_object host env).
Proof.
  intros Hf. unfold newParticle_object.
  repeat first [ apply keeps_rnd; exact Hf
               | apply keeps_random; exact Hf
               | keeps_step ].
Qed.

Lemma keeps_alloc {X : Type} (f : State -> X) (v : Particle.t) :
  (forall o s, f (set_objs o s) = f s) -> keeps f (alloc v).
Proof. intros Hf s. unfold exec, alloc; simpl. apply Hf. Qed.

Lemma keeps_store {X : Type} (f : State -> X) (p : ref) (v : Particle.t) :
  (forall o s, f (set_objs o s) = f s) -> keeps f (store p v).
Proof. intros Hf s. unfold exec, store, modify; simpl. apply Hf. Qed.

Lemma keeps_newParticle {X : Type} (f : State -> X) :
  (forall v s, f (set_rng v s) = f s) ->
  (forall o s, f (set_objs o s) = f s) ->
  keeps f (newParticle host env).
Proof.
  intros Hr Ho. unfold newParticle.
  apply keeps_bind; [ apply keeps_newParticle_object, Hr | intro; apply keeps_alloc, Ho ].
Qed.

End Footprints.

(** ** Arrays and references *)

Lemma set_nth_length {A : Type} (i : nat) (v : A) (l : list A) :
  List.length (set_nth i v l) = List.length l.
Proof.
  revert i; induction l as [|a l IH]; intros [|i]; simpl; auto.
Qed.


Lemma nth_error_set_nth_eq {A : Type} (i : nat) (v : A) (l : list A) :
  (i < List.length l)%nat -> nth_error (set_nth i v l) i = Some v.
Proof.
  revert i; induction l as [|a l IH]; intros [|i] Hi; simpl in *; try lia; auto.
  apply IH; lia.
Qed.

Lemma nth_error_set_nth_neq {A : Type} (i j : nat) (v : A) (l : list A) :
  i <> j -> nth_error (set_nth i v l) j = nth_error l j.
Proof.
  revert i j; induction l as [|a l IH]; intros [|i] [|j] Hij; simpl; auto;
    try congruence.
Qed.

Lemma set_nth_app_last {A : Type} (v w : A) (l : list A) :
  set_nth (List.length l) v (l ++ [w]) = l ++ [v].
Proof. induction l as [|a l IH]; simpl; congruence. Qed.

Lemma set_nth_app_left {A : Type} (i : nat) (v : A) (l l' : list A) :
  (i < List.length l)%nat -> set_nth i v (l ++ l') = set_nth i v l ++ l'.
Proof.
  revert i; induction l as [|a l IH]; intros [|i] Hi; simpl in *; try lia; auto.
  rewrite IH by lia; reflexivity.
Qed.

Lemma set_nth_middle {A : Type} (v w : A) (l l' : list A) :
  set_nth (List.length l) v (l ++ w :: l') = l ++ v :: l'.
Proof. induction l as [|a l IH]; simpl; congruence. Qed.

Lemma splice1_middle {A : Type} (w : A) (l l' : list A) :
  splice1 (List.length l) (l ++ w :: l') = l ++ l'.
Proof. induction l as [|a l IH]; simpl; congruence. Qed.

Lemma nth_error_middle {A : Type} (w : A) (l l' : list A) :
  nth_error (l ++ w :: l') (List.length l) = Some w.
Proof. induction l as [|a l IH]; simpl; auto. Qed.

Lemma map_set_nth {A B : Type} (f : A -> B) (i : nat) (v : A) (l : list A) :
  map f (set_nth i v l) = set_nth i (f v) (map f l).
Proof.
  revert i; induction l as [|a l IH]; intros [|i]; simpl; auto.
  rewrite IH; reflexivity.
Qed.

Lemma In_set_nth {A : Type} (i : nat) (v a : A) (l : list A) :
  In a (set_nth i v l) -> a = v \/ In a l.
Proof.
  revert i; induction l as [|b l IH]; intros [|i] Ha; simpl in *; auto.
  - destruct Ha; auto.
  - destruct Ha as [Ha|Ha]; auto. apply IH in Ha. tauto.
Qed.

Lemma NoDup_set_nth {A : Type} (i : nat) (v : A) (l : list A) :
  NoDup l -> ~ In v l -> NoDup (set_nth i v l).
Proof.
  revert i; induction l as [|a l IH]; intros [|i] Hnd Hv; simpl; auto.
  - inversion Hnd; subst. constructor; auto. simpl in Hv; tauto.
  - inversion Hnd; subst. simpl in Hv. constructor.
    + intro Hin. apply In_set_nth in Hin. destruct Hin as [->|Hin]; tauto.
    + apply IH; tauto.
Qed.

(** In an array without repetition, [indexOf] finds the index one
    started from. *)
Lemma indexOf_nth (p : ref) (l : list ref) (i : nat) :
  NoDup l -> nth_error l i = Some p -> indexOf p l = Some i.
Proof.
  revert i; induction l as [|q l IH]; intros [|i] Hnd Hi; simpl in *; try discriminate.
  - injection Hi as ->. rewrite Nat.eqb_refl. reflexivity.
  - inversion Hnd; subst.
    destruct (Nat.eqb q p) eqn:E.
    + apply Nat.eqb_eq in E; subst. apply nth_error_In in Hi. tauto.
    + rewrite (IH i); auto.
Qed.

(** [indexOf] returns an index that holds the object. *)
Lemma indexOf_sound (p : ref) (l : list ref) (j : nat) :
  indexOf p l = Some j -> nth_error l j = Some p.
Proof.
  revert j; induction l as [|q l IH]; intros j Hj; simpl in *; try discriminate.
  destruct (Nat.eqb q p) eqn:E.
  - injection Hj as <-. apply Nat.eqb_eq in E; subst; reflexivity.
  - destruct (indexOf p l) as [k|]; try discriminate.
    injection Hj as <-. simpl. auto.
Qed.

(** The particles the array refers to. *)
Definition pool (s : State) : list (option Particle.t) :=
  map (nth_error (objs s)) (parts s).

(** The references of [parts] are distinct and point into the store:
    every element was put there as a fresh [newParticle()]. *)
Definition wf (s : State) : Prop :=
  NoDup (parts s) /\ Forall (fun p => (p < List.length (objs s))%nat) (parts s).

Lemma pool_store (O : list Particle.t) (P : list ref) (i : nat) (p : ref) (v : Particle.t) :
  NoDup P -> Forall (fun q => (q < List.length O)%nat) P ->
  nth_error P i = Some p ->
  map (nth_error (set_nth p v O)) P = set_nth i (Some v) (map (nth_error O) P).
Proof.
  revert i; induction P as [|q P IH]; intros [|i] Hnd Hb Hi; simpl in *; try discriminate.
  - injection Hi as ->. inversion Hnd; subst. inversion Hb; subst.
    rewrite nth_error_set_nth_eq by assumption. f_equal.
    apply map_ext_in. intros a Ha. apply nth_error_set_nth_neq. intros ->; tauto.
  - inversion Hnd; subst. inversion Hb; subst.
    rewrite (IH i) by assumption. f_equal.
    apply nth_error_set_nth_neq. intros <-. apply nth_error_In in Hi. tauto.
Qed.

Lemma pool_replace (O : list Particle.t) (P : list ref) (i : nat) (p : ref) (v r : Particle.t) :
  NoDup P -> Forall (fun q => (q < List.length O)%nat) P ->
  nth_error P i = Some p ->
  map (nth_error (set_nth p v O ++ [r])) (set_nth i (List.length O) P)
  = set_nth i (Some r) (map (nth_error O) P).
Proof.
  revert i; induction P as [|q P IH]; intros [|i] Hnd Hb Hi; simpl in *; try discriminate.
  - injection Hi as ->. inversion Hnd; subst. inversion Hb; subst.
    rewrite nth_error_app2 by (rewrite set_nth_length; lia).
    rewrite set_nth_length, Nat.sub_diag. simpl. f_equal.
    apply map_ext_in. intros a Ha.
    assert (a < List.length O)%nat by (rewrite Forall_forall in H4; auto).
    rewrite nth_error_app1 by (rewrite set_nth_length; lia).
    apply nth_error_set_nth_neq. intros ->; tauto.
  - inversion Hnd; subst. inversion Hb; subst.
    rewrite (IH i) by assumption. f_equal.
    rewrite nth_error_app1 by (rewrite set_nth_length; lia).
    apply nth_error_set_nth_neq. intros <-. apply nth_error_In in Hi. tauto.
Qed.

(** ** Statements that never look at the particles *)

(** [blind c]: [c] neither reads nor writes [parts] and the store, so
    it runs the same whatever they hold. *)
Definition blind {A : Type} (c : M A) : Prop :=
  (forall s o, c (set_objs o s) = (fst (c s), set_objs o (snd (c s)))) /\
  (forall s ps, c (set_parts ps s) = (fst (c s), set_parts ps (snd (c s)))).

Lemma blind_ret {A : Type} (a : A) : blind (ret a).
Proof. split; reflexivity. Qed.

Lemma blind_bind {A B : Type} (c : M A) (k : A -> M B) :
  blind c -> (forall a, blind (k a)) -> blind (bind c k).
Proof.
  intros [Ho Hp] Hk. split; intros s x; unfold bind.
  - rewrite Ho. destruct (c s) as [a s1]; simpl.
    destruct (Hk a) as [Hko _]. rewrite Hko. reflexivity.
  - rewrite Hp. destruct (c s) as [a s1]; simpl.
    destruct (Hk a) as [_ Hkp]. rewrite Hkp. reflexivity.
Qed.

Lemma blind_exec_objs {A : Type} (c : M A) (s : State) (o : list Particle.t) :
  blind c -> exec c (set_objs o s) = set_objs o (exec c s).
Proof. intros [Ho _]. unfold exec. rewrite Ho. reflexivity. Qed.

Lemma blind_eval_objs {A : Type} (c : M A) (s : State) (o : list Particle.t) :
  blind c -> eval c (set_objs o s) = eval c s.
Proof. intros [Ho _]. unfold eval. rewrite Ho. reflexivity. Qed.

Lemma blind_exec_parts {A : Type} (c : M A) (s : State) (ps : list ref) :
  blind c -> exec c (set_parts ps s) = set_parts ps (exec c s).
Proof. intros [_ Hp]. unfold exec. rewrite Hp. reflexivity. Qed.

Lemma blind_eval_parts {A : Type} (c : M A) (s : State) (ps : list ref) :
  blind c -> eval c (set_parts ps s) = eval c s.
Proof. intros [_ Hp]. unfold eval. rewrite Hp. reflexivity. Qed.

Section Values.

Variable host : Host.
Variable env : Env.

Lemma blind_random : blind (random host).
Proof. split; reflexivity. Qed.

Lemma blind_rnd (a b : Q) : blind (rnd host a b).
Proof.
  unfold rnd. apply blind_bind; [ apply blind_random | intro; apply blind_ret ].
Qed.

Lemma blind_mode : blind (gets mode).
Proof. split; reflexivity. Qed.

Lemma blind_paint (c : DrawCmd) : blind (paint c).
Proof. split; reflexivity. Qed.

Lemma blind_addRipple (x y : Q) : blind (addRipple x y).
Proof. split; reflexivity. Qed.

Ltac blind_step :=
  match goal with
  | |- blind (bind _ _) => apply blind_bind; [ | intro ]
  | |- blind (ret _) => apply blind_ret
  | |- blind (rnd _ _ _) => apply blind_rnd
  | |- blind (random _) => apply blind_random
  | |- blind (gets mode) => apply blind_mode
  | |- blind (paint _) => apply blind_paint
  | |- blind (addRipple _ _) => apply blind_addRipple
  | |- blind (if ?b then _ else _) => destruct b
  | |- blind (match ?x with _ => _ end) => destruct x
  end.

Lemma blind_newParticle_object : blind (newParticle_object host env).
Proof. unfold newParticle_object. repeat blind_step. Qed.

Lemma blind_draw (v : Particle.t) : blind (draw host env v).
Proof. unfold draw. repeat blind_step. Qed.

(** The particle that replaces one gone off-screen: a new one from the
    factory, moved to a random abscissa just above the top edge. *)
Definition respawn : M Particle.t :=
  v <- newParticle_object host env ;;
  u1 <- random host ;;
  u2 <- random host ;;
  ret (Particle.set_y (-10 - u2 * 40) (Particle.set_x (u1 * logicalW env) v)).

(** One turn of the loop on the fields of the particle it visits: what
    becomes of the slot. *)
Definition visit_value (now dt : Q) (v : Particle.t) : M Particle.t :=
  m <- gets mode ;;
  let v' := physics host env m now dt v in
  draw host env v' ;;;
  if offscreen env v' then respawn else ret v'.

(** The whole loop on the particles of the pool, in order. *)
Fixpoint tick_values (now dt : Q) (vs : list Particle.t) : M (list Particle.t) :=
  match vs with
  | [] => ret []
  | v :: vs' =>
      v' <- visit_value now dt v ;;
      r <- tick_values now dt vs' ;;
      ret (v' :: r)
  end.

Lemma blind_respawn : blind respawn.
Proof.
  unfold respawn.
  repeat first [ apply blind_newParticle_object | blind_step ].
Qed.

Lemma blind_visit_value (now dt : Q) (v : Particle.t) : blind (visit_value now dt v).
Proof.
  unfold visit_value.
  repeat first [ apply blind_draw | apply blind_respawn | blind_step ].
Qed.

Lemma blind_tick_values (now dt : Q) (vs : list Particle.t) :
  blind (tick_values now dt vs).
Proof.
  induction vs as [|v vs IH]; simpl.
  - apply blind_ret.
  - repeat first [ apply blind_visit_value | apply IH | blind_step ].
Qed.

Lemma keeps_draw {X : Type} (f : State -> X) (v : Particle.t) :
  (forall a s, f (set_rng a s) = f s) ->
  (forall a s, f (set_canvas a s) = f s) ->
  (forall a s, f (set_ripples a s) = f s) ->
  keeps f (draw host env v).
Proof.
  intros Hr Hc Hp. unfold draw, paint, addRipple.
  repeat first [ apply keeps_random; exact Hr
               | apply keeps_modify; intro; first [ apply Hc | apply Hp ]
               | keeps_step ].
Qed.

Lemma keeps_respawn {X : Type} (f : State -> X) :
  (forall a s, f (set_rng a s) = f s) -> keeps f respawn.
Proof.
  intros Hr. unfold respawn.
  repeat first [ apply keeps_newParticle_object; exact Hr
               | apply keeps_random; exact Hr
               | keeps_step ].
Qed.

Lemma keeps_visit_value {X : Type} (f : State -> X) (now dt : Q) (v : Particle.t) :
  (forall a s, f (set_rng a s) = f s) ->
  (forall a s, f (set_canvas a s) = f s) ->
  (forall a s, f (set_ripples a s) = f s) ->
  keeps f (visit_value now dt v).
Proof.
  intros Hr Hc Hp. unfold visit_value.
  repeat first [ apply keeps_draw; assumption
               | apply keeps_respawn; assumption
               | keeps_step ].
Qed.

Lemma keeps_tick_values {X : Type} (f : State -> X) (now dt : Q) (vs : list Particle.t) :
  (forall a s, f (set_rng a s) = f s) ->
  (forall a s, f (set_canvas a s) = f s) ->
  (forall a s, f (set_ripples a s) = f s) ->
  keeps f (tick_values now dt vs).
Proof.
  intros Hr Hc Hp. induction vs as [|v vs IH]; simpl.
  - apply keeps_ret.
  - repeat first [ apply keeps_visit_value; assumption | apply IH | keeps_step ].
Qed.

End Values.

Lemma set_parts_objs_id (s : State) : set_parts (parts s) (set_objs (objs s) s) = s.
Proof. destruct s; reflexivity. Qed.

(** ** The loop over [parts] against the loop over the particles *)

Section Refinement.
Variable host : Host.
Variable env : Env.

Lemma recycle_spec (p : ref) (s : State) :
  recycle host env p s
  = (tt, set_parts (match indexOf p (parts s) with
                    | Some j => set_nth j (List.length (objs s)) (parts s)
                    | None => parts s
                    end)
           (set_objs (objs s ++ [eval (respawn host env) s])
              (exec (respawn host env) s))).
Proof.
  assert (Hp : parts (exec (newParticle_object host env) s) = parts s)
    by (apply keeps_newParticle_object; reflexivity).
  assert (Ho : objs (exec (newParticle_object host env) s) = objs s)
    by (apply keeps_newParticle_object; reflexivity).
  unfold recycle, respawn, newParticle, alloc, store, bind, gets, modify, ret,
    random, exec, eval in *; simpl in *.
  destruct (newParticle_object host env s) as [w s2]; simpl in *.
  destruct (indexOf p (parts s)) as [j|]; simpl.
  - rewrite nth_error_middle. simpl. rewrite set_nth_app_last.
    rewrite nth_error_middle. simpl. rewrite set_nth_app_last.
    rewrite Ho. destruct s2; reflexivity.
  - rewrite nth_error_middle. simpl. rewrite set_nth_app_last.
    rewrite nth_error_middle. simpl. rewrite set_nth_app_last.
    rewrite Ho, <- Hp. destruct s2; reflexivity.
Qed.

Lemma visit_refines (now dt : Q) (s : State) (i : nat) (p : ref) (v : Particle.t) :
  wf s -> nth_error (parts s) i = Some p -> nth_error (objs s) p = Some v ->
  exists P O,
    exec (visit host env now dt i) s
    = set_parts P (set_objs O (exec (visit_value host env now dt v) s))
    /\ map (nth_error O) P
       = set_nth i (Some (eval (visit_value host env now dt v) s)) (pool s)
    /\ NoDup P /\ Forall (fun q => (q < List.length O)%nat) P.
Proof.
  intros [Hnd Hb] Hi Hv.
  assert (Hp : (p < List.length (objs s))%nat).
  { rewrite Forall_forall in Hb. apply Hb. eapply nth_error_In; eauto. }
  unfold visit, visit_value.
  repeat (rewrite ?exec_bind, ?eval_bind, ?eval_gets, ?exec_gets, ?Hi, ?Hv; simpl).
  set (v' := physics host env (mode s) now dt v).
  unfold store at 1. rewrite exec_modify.
  rewrite (blind_exec_objs _ _ _ (blind_draw host env v')).
  set (s1 := exec (draw host env v') s).
  assert (Hp1 : parts s1 = parts s) by (apply keeps_draw; reflexivity).
  assert (Ho1 : objs s1 = objs s) by (apply keeps_draw; reflexivity).
  set (O1 := set_nth p v' (objs s)).
  assert (HO1 : List.length O1 = List.length (objs s)) by apply set_nth_length.
  destruct (offscreen env v').
  - unfold exec at 1. rewrite recycle_spec. simpl.
    rewrite Hp1, (indexOf_nth p (parts s) i Hnd Hi).
    rewrite (blind_exec_objs _ _ _ (blind_respawn host env)).
    rewrite (blind_eval_objs _ _ _ (blind_respawn host env)).
    set (r := eval (respawn host env) s1).
    set (s3 := exec (respawn host env) s1).
    exists (set_nth i (List.length O1) (parts s)), (O1 ++ [r]).
    split; [|split; [|split]].
    + destruct s3; reflexivity.
    + unfold pool. rewrite HO1. apply pool_replace; assumption.
    + apply NoDup_set_nth; [assumption|].
      intro Hin. rewrite Forall_forall in Hb. apply Hb in Hin. lia.
    + rewrite Forall_forall in *. intros q Hq. rewrite length_app. simpl.
      apply In_set_nth in Hq. destruct Hq as [->|Hq]; [lia|].
      apply Hb in Hq. lia.
  - exists (parts s), O1. rewrite exec_ret. split; [|split; [|split]].
    + rewrite <- Hp1. destruct s1; reflexivity.
    + unfold pool. simpl. apply pool_store; assumption.
    + assumption.
    + rewrite HO1. assumption.
Qed.

Lemma tick_values_length (now dt : Q) (vs : list Particle.t) (s : State) :
  List.length (eval (tick_values host env now dt vs) s) = List.length vs.
Proof.
  revert s; induction vs as [|v vs IH]; intro s; simpl.
  - reflexivity.
  - rewrite !eval_bind. simpl. rewrite IH. reflexivity.
Qed.

Lemma tick_values_snoc (now dt : Q) (vs : list Particle.t) (v : Particle.t) (s : State) :
  eval (tick_values host env now dt (vs ++ [v])) s
  = eval (tick_values host env now dt vs) s
    ++ [eval (visit_value host env now dt v) (exec (tick_values host env now dt vs) s)]
  /\ exec (tick_values host env now dt (vs ++ [v])) s
     = exec (visit_value host env now dt v) (exec (tick_values host env now dt vs) s).
Proof.
  revert s; induction vs as [|a vs IH]; intro s; simpl.
  - rewrite !eval_bind, !exec_bind, !eval_ret, !exec_ret. split; reflexivity.
  - rewrite !eval_bind, !exec_bind, !eval_ret, !exec_ret.
    destruct (IH (exec (visit_value host env now dt a) s)) as [E1 E2].
    rewrite E1, E2. split; reflexivity.
Qed.

Lemma set_parts_objs_twice (P P' : list ref) (O O' : list Particle.t) (s : State) :
  set_parts P' (set_objs O' (set_parts P (set_objs O s))) = set_parts P' (set_objs O' s).
Proof. destruct s; reflexivity. Qed.

Lemma loop_prefix (now dt : Q) (s : State) (vs : list Particle.t) (k : nat) :
  wf s -> pool s = map Some vs -> (k <= List.length vs)%nat ->
  exists P O,
    exec (for_upto k (visit host env now dt)) s
    = set_parts P (set_objs O (exec (tick_values host env now dt (firstn k vs)) s))
    /\ map (nth_error O) P
       = map Some (eval (tick_values host env now dt (firstn k vs)) s ++ skipn k vs)
    /\ NoDup P /\ Forall (fun q => (q < List.length O)%nat) P.
Proof.
  intros Hwf Hpool. induction k as [|k IH]; intro Hk.
  - exists (parts s), (objs s). simpl. destruct Hwf as [Hnd Hb].
    split; [|split; [|split]]; auto. symmetry; apply set_parts_objs_id.
  - destruct IH as (P & O & E & Hmap & Hnd & Hb); [lia|].
    destruct (nth_error vs k) as [v|] eqn:Hv;
      [| apply nth_error_None in Hv; lia ].
    set (res := eval (tick_values host env now dt (firstn k vs)) s) in *.
    set (t := exec (tick_values host env now dt (firstn k vs)) s) in *.
    assert (Hres : List.length res = k).
    { unfold res. rewrite tick_values_length. apply firstn_length_le. lia. }
    assert (Hskip : skipn k vs = v :: skipn (S k) vs).
    { clear - Hv. revert vs Hv. induction k as [|k IH]; intros [|a vs] Hv;
        simpl in *; try discriminate.
      - congruence.
      - apply IH; assumption. }
    assert (Hfirst : firstn (S k) vs = firstn k vs ++ [v]).
    { clear - Hv. revert vs Hv. induction k as [|k IH]; intros [|a vs] Hv;
        simpl in *; try discriminate.
      - congruence.
      - f_equal. apply IH; assumption. }
    rewrite Hskip in Hmap.
    assert (HlenP : List.length P = List.length (res ++ v :: skipn (S k) vs)).
    { pose proof (f_equal (@List.length _) Hmap) as HL.
      rewrite !length_map in HL. exact HL. }
    destruct (nth_error P k) as [p|] eqn:Hp.
    2:{ apply nth_error_None in Hp. rewrite HlenP, length_app in Hp. simpl in Hp. lia. }
    assert (Hobj : nth_error O p = Some v).
    { pose proof (map_nth_error (nth_error O) k P Hp) as H1.
      rewrite Hmap in H1. rewrite map_app in H1. simpl in H1.
      rewrite <- Hres in H1 at 1. rewrite <- (length_map Some res) in H1.
      rewrite nth_error_middle in H1. congruence. }
    rewrite for_upto_S, E.
    destruct (visit_refines now dt (set_parts P (set_objs O t)) k p v)
      as (P' & O' & E' & Hmap' & Hnd' & Hb').
    { split; simpl; assumption. }
    { simpl; assumption. }
    { simpl; assumption. }
    rewrite (blind_exec_parts _ _ _ (blind_visit_value host env now dt v)) in E'.
    rewrite (blind_exec_objs _ _ _ (blind_visit_value host env now dt v)) in E'.
    rewrite (blind_eval_parts _ _ _ (blind_visit_value host env now dt v)) in Hmap'.
    rewrite (blind_eval_objs _ _ _ (blind_visit_value host env now dt v)) in Hmap'.
    rewrite set_parts_objs_twice in E'.
    destruct (tick_values_snoc now dt (firstn k vs) v s) as [S1 S2].
    exists P', O'. rewrite Hfirst, S1, S2. fold res. fold t.
    split; [exact E'|]. split; [|split; assumption].
    rewrite Hmap'. unfold pool. simpl. rewrite Hmap.
    rewrite <- map_set_nth. f_equal.
    rewrite <- Hres at 1. rewrite set_nth_middle. rewrite <- app_assoc. reflexivity.
Qed.

(** The loop over the array does to the pool what [tick_values] does
    to its particles. *)
Lemma loop_refines (now dt : Q) (s : State) (vs : list Particle.t) :
  wf s -> pool s = map Some vs ->
  exists P O,
    exec (for_upto (List.length (parts s)) (visit host env now dt)) s
    = set_parts P (set_objs O (exec (tick_values host env now dt vs) s))
    /\ map (nth_error O) P = map Some (eval (tick_values host env now dt vs) s)
    /\ NoDup P /\ Forall (fun q => (q < List.length O)%nat) P.
Proof.
  intros Hwf Hpool.
  assert (Hlen : List.length (parts s) = List.length vs).
  { pose proof (f_equal (@List.length _) Hpool) as HL.
    unfold pool in HL. rewrite !length_map in HL. exact HL. }
  destruct (loop_prefix now dt s vs (List.length vs) Hwf Hpool (le_n _))
    as (P & O & E & Hmap & Hnd & Hb).
  rewrite firstn_all in E, Hmap. rewrite skipn_all, app_nil_r in Hmap.
  exists P, O. rewrite Hlen. auto.
Qed.
End Refinement.

(** ** What one turn of the loop does to a particle *)

(** The ripples a list of drawn particles adds: one per rain drop
    below [logicalH - 2], at its abscissa, on the line [logicalH - 3]. *)
Definition splashes (env : Env) (ws : list Particle.t) : list Ripple.t :=
  map (fun w => Ripple.mk (Particle.x w) (logicalH env - 3) 2 0.35)
    (filter (fun w => Kind_eqb (Particle.type w) rain
                      && gtb (Particle.y w) (logicalH env - 2)) ws).

(** A particle as the factory builds it in mode [m]. *)
Definition made (host : Host) (env : Env) (m : string) (v : Particle.t) : Prop :=
  exists s, mode s = m /\ v = eval (newParticle_object host env) s.

(** A particle as [respawn] leaves it in mode [m]. *)
Definition recycled (host : Host) (env : Env) (m : string) (v : Particle.t) : Prop :=
  exists s, mode s = m /\ v = eval (respawn host env) s.

(** What a slot holds after its turn: the particle moved by [physics],
    or a recycled one when that went off-screen. *)
Definition slot_after (host : Host) (env : Env) (m : string) (now dt : Q)
    (v r : Particle.t) : Prop :=
  if offscreen env (physics host env m now dt v)
  then recycled host env m r
  else r = physics host env m now dt v.

Section Turns.

Variable host : Host.
Variable env : Env.

Lemma draw_ripples (v : Particle.t) (s : State) :
  ripples (exec (draw host env v) s) = ripples s ++ splashes env [v].
Proof.
  unfold draw, splashes. simpl.
  destruct (Particle.type v) eqn:T; simpl;
    try (unfold exec, paint, modify; simpl; rewrite app_nil_r; reflexivity).
  - unfold exec, bind, random, paint, modify. simpl.
    destruct (negb (ltb (Math_random host (rng s)) 0.5));
      [ destruct (images_leaf2 env) | destruct (images_leaf1 env) ];
      simpl; rewrite app_nil_r; reflexivity.
  - rewrite exec_bind. destruct (gtb (Particle.y v) (logicalH env - 2)); simpl.
    + reflexivity.
    + rewrite app_nil_r. reflexivity.
Qed.

Lemma visit_value_mode (now dt : Q) (v : Particle.t) (s : State) :
  mode (exec (visit_value host env now dt v) s) = mode s.
Proof. apply keeps_visit_value; reflexivity. Qed.

Lemma visit_value_ripples (now dt : Q) (v : Particle.t) (s : State) :
  ripples (exec (visit_value host env now dt v) s)
  = ripples s ++ splashes env [physics host env (mode s) now dt v].
Proof.
  unfold visit_value. rewrite !exec_bind, eval_gets, exec_gets.
  set (v' := physics host env (mode s) now dt v).
  rewrite <- draw_ripples.
  destruct (offscreen env v').
  - apply keeps_respawn. reflexivity.
  - reflexivity.
Qed.

Lemma visit_value_slot (now dt : Q) (v : Particle.t) (s : State) :
  slot_after host env (mode s) now dt v (eval (visit_value host env now dt v) s).
Proof.
  unfold slot_after, visit_value. rewrite !eval_bind, eval_gets, exec_gets.
  set (v' := physics host env (mode s) now dt v).
  destruct (offscreen env v').
  - exists (exec (draw host env v') s). split; [|reflexivity].
    apply keeps_draw; reflexivity.
  - reflexivity.
Qed.

Lemma tick_values_mode (now dt : Q) (vs : list Particle.t) (s : State) :
  mode (exec (tick_values host env now dt vs) s) = mode s.
Proof. apply keeps_tick_values; reflexivity. Qed.

(** Every slot gets its turn, once and in order. *)
Lemma tick_values_slots (now dt : Q) (vs : list Particle.t) (s : State) :
  Forall2 (slot_after host env (mode s) now dt) vs
    (eval (tick_values host env now dt vs) s).
Proof.
  revert s; induction vs as [|v vs IH]; intro s; simpl.
  - constructor.
  - rewrite !eval_bind. simpl. constructor.
    + apply visit_value_slot.
    + rewrite <- (visit_value_mode now dt v s). apply IH.
Qed.

(** The ripples the loop adds. *)
Lemma tick_values_ripples (now dt : Q) (vs : list Particle.t) (s : State) :
  ripples (exec (tick_values host env now dt vs) s)
  = ripples s ++ splashes env (map (physics host env (mode s) now dt) vs).
Proof.
  revert s; induction vs as [|v vs IH]; intro s; simpl.
  - unfold splashes; simpl. rewrite app_nil_r. reflexivity.
  - rewrite !exec_bind. rewrite exec_ret. rewrite IH, visit_value_ripples, visit_value_mode.
    rewrite <- app_assoc. f_equal.
    unfold splashes. simpl.
    destruct (Kind_eqb _ rain && gtb _ _); reflexivity.
Qed.

End Turns.

(** ** [init] and [setMode] *)

Section Building.

Variable host : Host.
Variable env : Env.

Lemma push_new_spec (s : State) :
  exec (q <- newParticle host env ;; modify (fun s0 => set_parts (parts s0 ++ [q]) s0)) s
  = set_parts (parts s ++ [List.length (objs s)])
      (set_objs (objs s ++ [eval (newParticle_object host env) s])
         (exec (newParticle_object host env) s)).
Proof.
  assert (Hp : parts (exec (newParticle_object host env) s) = parts s)
    by (apply keeps_newParticle_object; reflexivity).
  assert (Ho : objs (exec (newParticle_object host env) s) = objs s)
    by (apply keeps_newParticle_object; reflexivity).
  unfold newParticle, alloc, bind, modify, exec, eval in *; simpl in *.
  destruct (newParticle_object host env s) as [w s2]; simpl in *.
  rewrite Ho, Hp. destruct s2; reflexivity.
Qed.

(** The pushes of [init]: fresh references, one after the other. *)
Lemma pushes_spec (n : nat) (s : State) :
  let s' := exec (for_upto n (fun _ =>
              q <- newParticle host env ;;
              modify (fun s0 => set_parts (parts s0 ++ [q]) s0))) s in
  parts s' = parts s ++ seq (List.length (objs s)) n
  /\ exists vs, objs s' = objs s ++ vs /\ List.length vs = n
                /\ Forall (made host env (mode s)) vs.
Proof.
  induction n as [|n IH]; cbv zeta in *.
  - simpl. rewrite app_nil_r. split; [reflexivity|].
    exists []. rewrite app_nil_r. auto.
  - rewrite for_upto_S. cbv beta.
    set (sn := exec (for_upto n _) s) in *.
    destruct IH as (Hp & vs & Ho & Hlen & Hall).
    assert (Hm : mode sn = mode s).
    { unfold sn. apply keeps_for_upto. intro.
      apply keeps_bind; [ apply keeps_newParticle; reflexivity
                        | intro; apply keeps_modify; reflexivity ]. }
    rewrite push_new_spec. unfold set_parts, set_objs; cbn [parts objs].
    split.
    + rewrite Hp, Ho, seq_S, length_app, Hlen, app_assoc. reflexivity.
    + exists (vs ++ [eval (newParticle_object host env) sn]).
      rewrite Ho, app_assoc, length_app, Hlen. simpl.
      split; [reflexivity|]. split; [lia|].
      apply Forall_app. split; [assumption|].
      constructor; [|constructor]. exists sn. auto.
Qed.

Lemma pool_seq (l vs : list Particle.t) :
  map (nth_error (l ++ vs)) (seq (List.length l) (List.length vs)) = map Some vs.
Proof.
  revert l; induction vs as [|a vs IH]; intro l; simpl.
  - reflexivity.
  - rewrite nth_error_middle. f_equal.
    specialize (IH (l ++ [a])). rewrite <- app_assoc, length_app in IH. simpl in IH.
    rewrite Nat.add_1_r in IH. exact IH.
Qed.

(** After [init(count)] the pool holds [count] new particles of the
    active mode, each through a reference of its own. *)
Lemma init_spec (count : nat) (s : State) :
  let s' := exec (init host env count) s in
  wf s' /\ List.length (parts s') = count
  /\ exists vs, pool s' = map Some vs /\ Forall (made host env (mode s)) vs.
Proof.
  unfold init. rewrite exec_bind, exec_modify.
  destruct (pushes_spec count (set_parts [] s)) as (Hp & vs & Ho & Hlen & Hall).
  simpl in *.
  set (s' := exec _ (set_parts [] s)) in *.
  split; [split|split].
  - rewrite Hp. apply seq_NoDup.
  - rewrite Hp, Ho. apply Forall_forall. intros p Hin. apply in_seq in Hin.
    rewrite length_app. lia.
  - rewrite Hp. apply length_seq.
  - exists vs. split; [|assumption].
    unfold pool. rewrite Hp, Ho, <- Hlen. apply pool_seq.
Qed.

Lemma keeps_init {X : Type} (f : State -> X) (count : nat) :
  (forall a s, f (set_rng a s) = f s) ->
  (forall a s, f (set_objs a s) = f s) ->
  (forall a s, f (set_parts a s) = f s) ->
  keeps f (init host env count).
Proof.
  intros Hr Ho Hp. unfold init.
  repeat first [ apply keeps_newParticle; assumption
               | apply keeps_modify; intro; apply Hp
               | keeps_step ].
Qed.

(** The flares [setMode] seeds. *)
Definition seed_flares : M unit :=
  u <- rnd host 0 2 ;;
  let n := 2 + Math.floor u in
  for_upto (turns n) (fun _ =>
    fx <- rnd host 0 (logicalW env) ;;
    fy <- rnd host 0 (logicalH env * 0.6) ;;
    fr <- rnd host 120 240 ;;
    ft <- rnd host 0 (Math.PI * 2) ;;
    fs <- rnd host 0.0002 0.0005 ;;
    modify (fun s => set_flares (flares s ++ [Flare.mk fx fy fr ft fs]) s)).

Lemma setMode_unfold (m : string) (s : State) :
  exec (setMode host env m) s
  = exec (if String.eqb m "summer" then seed_flares else ret tt)
      (set_flares [] (exec (init host env (init_count (maxCounts m))) (set_mode m s))).
Proof.
  assert (E : mode (exec (init host env (init_count (maxCounts m))) (set_mode m s)) = m)
    by (apply (keeps_init mode); reflexivity).
  unfold setMode. rewrite !exec_bind, !eval_gets, !exec_gets, !exec_modify.
  simpl. rewrite E. reflexivity.
Qed.

Lemma flare_pushes_length (n : nat) (s : State) :
  List.length (flares (exec (for_upto n (fun _ =>
    fx <- rnd host 0 (logicalW env) ;;
    fy <- rnd host 0 (logicalH env * 0.6) ;;
    fr <- rnd host 120 240 ;;
    ft <- rnd host 0 (Math.PI * 2) ;;
    fs <- rnd host 0.0002 0.0005 ;;
    modify (fun s0 => set_flares (flares s0 ++ [Flare.mk fx fy fr ft fs]) s0))) s))
  = (List.length (flares s) + n)%nat.
Proof.
  induction n as [|n IH].
  - simpl. rewrite exec_ret. lia.
  - rewrite for_upto_S. cbv beta.
    set (sn := exec (for_upto n _) s) in *.
    unfold rnd, random, bind, ret, modify, exec at 1. simpl.
    rewrite length_app, IH. simpl. lia.
Qed.

Lemma keeps_seed_flares {X : Type} (f : State -> X) :
  (forall a s, f (set_rng a s) = f s) ->
  (forall a s, f (set_flares a s) = f s) ->
  keeps f seed_flares.
Proof.
  intros Hr Hf. unfold seed_flares.
  repeat first [ apply keeps_rnd; assumption
               | apply keeps_modify; intro; apply Hf
               | keeps_step ].
Qed.

Lemma keeps_setMode {X : Type} (f : State -> X) (m : string) :
  (forall a s, f (set_rng a s) = f s) ->
  (forall a s, f (set_objs a s) = f s) ->
  (forall a s, f (set_parts a s) = f s) ->
  (forall a s, f (set_flares a s) = f s) ->
  (forall a s, f (set_mode a s) = f s) ->
  keeps f (setMode host env m).
Proof.
  intros Hr Ho Hp Hf Hm s. rewrite setMode_unfold.
  destruct (String.eqb m "summer").
  - rewrite keeps_seed_flares by assumption.
    rewrite Hf, keeps_init by assumption. apply Hm.
  - rewrite exec_ret, Hf, keeps_init by assumption. apply Hm.
Qed.

End Building.

(** ** The ripples of a tick *)

(** A ripple after its turn of the drawing loop. *)
Definition age (rp : Ripple.t) : Ripple.t :=
  Ripple.mk (Ripple.x rp) (Ripple.y rp) (Ripple.r rp + 0.9) (Ripple.alpha rp - 0.015).

(** The ripples that remain after the drawing loop: each one aged, and
    those faded to zero or less removed. *)
Definition aged (rs : list Ripple.t) : list Ripple.t :=
  filter (fun rp => negb (leb (Ripple.alpha rp) 0)) (map age rs).

Lemma aged_app (l l' : list Ripple.t) : aged (l ++ l') = aged l ++ aged l'.
Proof. unfold aged. rewrite map_app, filter_app. reflexivity. Qed.

Lemma ripple_loop_ripples (pre post : list Ripple.t) (s : State) :
  ripples s = pre ++ post ->
  ripples (exec (ripple_loop (List.length pre)) s) = aged pre ++ post.
Proof.
  revert post s. induction pre as [|rp pre IH] using rev_ind; intros post s Hs.
  - simpl. rewrite exec_ret. assumption.
  - rewrite length_app. simpl. rewrite Nat.add_1_r. simpl.
    rewrite <- app_assoc in Hs. simpl in Hs.
    rewrite !exec_bind, eval_gets, exec_gets, Hs, nth_error_middle.
    rewrite exec_bind.
    rewrite aged_app, <- app_assoc.
    unfold aged at 2. simpl.
    destruct (leb (Ripple.alpha rp - 0.015) 0) eqn:E; simpl.
    + apply IH. unfold paint, exec, modify. simpl. apply splice1_middle.
    + apply IH. unfold paint, exec, modify. simpl. apply set_nth_middle.
Qed.

Lemma keeps_ripple_loop {X : Type} (f : State -> X) (k : nat) :
  (forall a s, f (set_canvas a s) = f s) ->
  (forall a s, f (set_ripples a s) = f s) ->
  keeps f (ripple_loop k).
Proof.
  intros Hc Hr. induction k as [|k IH]; simpl.
  - apply keeps_ret.
  - unfold paint.
    repeat first [ apply IH
                 | apply keeps_modify; intro; first [ apply Hc | apply Hr ]
                 | keeps_step ].
Qed.

(** ** One tick *)

Section Tick.

Variable host : Host.
Variable env : Env.

(** The start of a tick that runs: the time reference, the cleared
    canvas and the flares. *)
Definition before_particles (now : Q) : M unit :=
  modify (set_last now) ;;;
  clearRect ;;;
  m <- gets mode ;;
  fs <- gets flares ;;
  if String.eqb m "summer" && negb (Nat.eqb (List.length fs) 0)
  then fs' <- drawFlares host fs ;; modify (set_flares fs')
  else ret tt.

Lemma keeps_drawFlares {X : Type} (f : State -> X) (fs : list Flare.t) :
  (forall a s, f (set_canvas a s) = f s) -> keeps f (drawFlares host fs).
Proof.
  intros Hc. induction fs as [|fl fs IH]; simpl.
  - apply keeps_ret.
  - unfold drawFlare, paint.
    repeat first [ apply IH | apply keeps_modify; intro; apply Hc | keeps_step ].
Qed.

Lemma keeps_before_particles {X : Type} (f : State -> X) (now : Q) :
  (forall a s, f (set_last a s) = f s) ->
  (forall a s, f (set_canvas a s) = f s) ->
  (forall a s, f (set_flares a s) = f s) ->
  keeps f (before_particles now).
Proof.
  intros Hl Hc Hf. unfold before_particles, clearRect.
  repeat first [ apply keeps_drawFlares; assumption
               | apply keeps_modify; intro; first [ apply Hl | apply Hc | apply Hf ]
               | keeps_step ].
Qed.

(** A tick of a running engine, stage by stage. *)
Lemma step_running (now : Q) (s : State) :
  running s = true ->
  exec (step host env now) s
  = exec (h <- requestAnimationFrame ;; modify (set_rafId (Some h)))
      (exec (rs <- gets ripples ;; ripple_loop (List.length rs))
         (exec (ps <- gets parts ;;
                for_upto (List.length ps)
                  (visit host env now (Math.min 40 (now - last s))))
            (exec (before_particles now) s))).
Proof.
  intro Hrun. unfold step, before_particles.
  repeat (rewrite ?exec_bind, ?eval_bind, ?eval_gets, ?exec_gets, ?exec_modify; simpl).
  rewrite Hrun. simpl.
  repeat (rewrite ?exec_bind, ?eval_bind, ?eval_gets, ?exec_gets, ?exec_modify; simpl).
  reflexivity.
Qed.

(** A tick of a paused engine only clears [rafId]. *)
Lemma step_paused (now : Q) (s : State) :
  running s = false ->
  exec (step host env now) s = set_rafId None (set_last now s).
Proof.
  intro Hrun. unfold step.
  repeat (rewrite ?exec_bind, ?eval_bind, ?eval_gets, ?exec_gets, ?exec_modify; simpl).
  rewrite Hrun. reflexivity.
Qed.

Lemma keeps_visit {X : Type} (f : State -> X) (now dt : Q) (i : nat) :
  (forall a s, f (set_rng a s) = f s) ->
  (forall a s, f (set_canvas a s) = f s) ->
  (forall a s, f (set_ripples a s) = f s) ->
  (forall a s, f (set_objs a s) = f s) ->
  (forall a s, f (set_parts a s) = f s) ->
  keeps f (visit host env now dt i).
Proof.
  intros Hr Hc Hp Ho Hq. unfold visit, recycle.
  repeat first [ apply keeps_draw; assumption
               | apply keeps_newParticle; assumption
               | apply keeps_store; assumption
               | apply keeps_random; assumption
               | apply keeps_modify; intro; apply Hq
               | keeps_step ].
Qed.

(** The pool and the ripples after a tick of a running engine. *)
Lemma step_spec (now : Q) (s : State) (vs : list Particle.t) :
  wf s -> running s = true -> pool s = map Some vs ->
  let dt := Math.min 40 (now - last s) in
  let s' := exec (step host env now) s in
  exists vs',
    pool s' = map Some vs' /\ wf s'
    /\ Forall2 (slot_after host env (mode s) now dt) vs vs'
    /\ ripples s'
       = aged (ripples s ++ splashes env (map (physics host env (mode s) now dt) vs)).
Proof.
  intros Hwf Hrun Hpool dt s'. subst s'. rewrite (step_running now s Hrun). fold dt.
  set (s2 := exec (before_particles now) s).
  assert (Hp2 : parts s2 = parts s) by (apply keeps_before_particles; reflexivity).
  assert (Ho2 : objs s2 = objs s) by (apply keeps_before_particles; reflexivity).
  assert (Hm2 : mode s2 = mode s) by (apply keeps_before_particles; reflexivity).
  assert (Hr2 : ripples s2 = ripples s) by (apply keeps_before_particles; reflexivity).
  assert (Hwf2 : wf s2) by (unfold wf; rewrite Hp2, Ho2; exact Hwf).
  assert (Hpool2 : pool s2 = map Some vs) by (unfold pool; rewrite Hp2, Ho2; exact Hpool).
  destruct (loop_refines host env now dt s2 vs Hwf2 Hpool2) as (P & O & E & Hmap & Hnd & Hb).
  rewrite (exec_bind (gets parts)), eval_gets, exec_gets, E.
  set (t := exec (tick_values host env now dt vs) s2) in *.
  set (s3 := set_parts P (set_objs O t)).
  rewrite (exec_bind (gets ripples)), eval_gets, exec_gets.
  set (s4 := exec (ripple_loop (List.length (ripples s3))) s3).
  assert (Hp4 : parts s4 = P) by (unfold s4; rewrite keeps_ripple_loop; reflexivity).
  assert (Ho4 : objs s4 = O) by (unfold s4; rewrite keeps_ripple_loop; reflexivity).
  assert (Hr4 : ripples s4 = aged (ripples s3)).
  { unfold s4. rewrite (ripple_loop_ripples (ripples s3) [] s3), app_nil_r;
      [reflexivity | rewrite app_nil_r; reflexivity]. }
  exists (eval (tick_values host env now dt vs) s2).
  set (s5 := exec (h <- requestAnimationFrame ;; modify (set_rafId (Some h))) s4).
  assert (Hp5 : parts s5 = P) by (rewrite <- Hp4; reflexivity).
  assert (Ho5 : objs s5 = O) by (rewrite <- Ho4; reflexivity).
  assert (Hr5 : ripples s5 = ripples s4) by reflexivity.
  unfold pool, wf. rewrite Hp5, Ho5, Hr5, Hr4.
  split; [exact Hmap|]. split; [split; assumption|]. split.
  - rewrite <- Hm2. apply tick_values_slots.
  - unfold s3. simpl. unfold t.
    rewrite tick_values_ripples, Hr2, Hm2. reflexivity.
Qed.

End Tick.

(** ** Scheduling *)

(** What can happen to an engine once it is created: the browser runs
    a requested frame, or the page calls one of the four operations. *)
Inductive Event :=
  | Frame (h : positive) (now : Q)
  | Pause
  | Resume (tnow : Q)
  | SetMode (m : string)
  | Reflow.

Definition handle (host : Host) (env : Env) (ev : Event) : M unit :=
  match ev with
  | Frame h now => frame host env h now
  | Pause => pause
  | Resume tnow => resume host tnow
  | SetMode m => setMode host env m
  | Reflow => reflow env
  end.

(** The events of a run, each with the globals as they are when it
    happens. *)
Fixpoint run (host : Host) (evs : list (Env * Event)) (s : State) : State :=
  match evs with
  | [] => s
  | (env, ev) :: evs' => run host evs' (exec (handle host env ev) s)
  end.

(** The states of an engine created on a page where no frame is
    pending (the engine is the only caller of
    [requestAnimationFrame]). *)
Inductive reachable (host : Host) : State -> Prop :=
  | reach_create (env : Env) (m : string) (tnow : Q) (s0 : State) :
      frames s0 = [] ->
      reachable host (exec (createParticleEngine host env m tnow) s0)
  | reach_event (env : Env) (ev : Event) (s : State) :
      reachable host s -> reachable host (exec (handle host env ev) s).

(** Either the engine runs and the one pending frame is the one
    [rafId] names, or it is paused and nothing is pending. *)
Definition sched_ok (s : State) : Prop :=
  (running s = true /\ exists h, rafId s = Some h /\ frames s = [h])
  \/ (running s = false /\ rafId s = None /\ frames s = []).

Section Scheduling.

Variable host : Host.

Lemma keeps_reflow {X : Type} (f : State -> X) (env : Env) :
  (forall a s, f (set_objs a s) = f s) -> keeps f (reflow env).
Proof.
  intros Ho. unfold reflow. apply keeps_bind; [apply keeps_gets|].
  intro ps. induction ps as [|p ps IH]; simpl.
  - apply keeps_ret.
  - repeat first [ apply IH | apply keeps_store; assumption | keeps_step ].
Qed.

Lemma keeps_particle_loop {X : Type} (f : State -> X) (env : Env) (now dt : Q) :
  (forall a s, f (set_rng a s) = f s) ->
  (forall a s, f (set_canvas a s) = f s) ->
  (forall a s, f (set_ripples a s) = f s) ->
  (forall a s, f (set_objs a s) = f s) ->
  (forall a s, f (set_parts a s) = f s) ->
  keeps f (ps <- gets parts ;; for_upto (List.length ps) (visit host env now dt)).
Proof.
  intros. apply keeps_bind; [apply keeps_gets|]. intro.
  apply keeps_for_upto. intro. apply keeps_visit; assumption.
Qed.

Lemma keeps_ripples_stage {X : Type} (f : State -> X) :
  (forall a s, f (set_canvas a s) = f s) ->
  (forall a s, f (set_ripples a s) = f s) ->
  keeps f (rs <- gets ripples ;; ripple_loop (List.length rs)).
Proof.
  intros. apply keeps_bind; [apply keeps_gets|]. intro.
  apply keeps_ripple_loop; assumption.
Qed.

(** A tick of a running engine requests exactly one frame, the next
    handle, and records it in [rafId]. *)
Lemma step_requests (env : Env) (now : Q) (s : State) :
  running s = true ->
  let s' := exec (step host env now) s in
  running s' = true /\ rafId s' = Some (next_frame s)
  /\ frames s' = frames s ++ [next_frame s]
  /\ next_frame s' = Pos.succ (next_frame s).
Proof.
  intros Hrun s'. subst s'. rewrite (step_running host env now s Hrun).
  set (c1 := before_particles host now).
  set (c2 := ps <- gets parts ;; for_upto (List.length ps) (visit host env now _)).
  set (c3 := rs <- gets ripples ;; ripple_loop (List.length rs)).
  set (s3 := exec c3 (exec c2 (exec c1 s))).
  assert (K : forall X (f : State -> X),
             (forall a s, f (set_rng a s) = f s) ->
             (forall a s, f (set_canvas a s) = f s) ->
             (forall a s, f (set_ripples a s) = f s) ->
             (forall a s, f (set_objs a s) = f s) ->
             (forall a s, f (set_parts a s) = f s) ->
             (forall a s, f (set_last a s) = f s) ->
             (forall a s, f (set_flares a s) = f s) ->
             f s3 = f s).
  { intros X f ? ? ? ? ? ? ?. unfold s3, c3, c2, c1.
    rewrite keeps_ripples_stage, keeps_particle_loop, keeps_before_particles;
      auto. }
  unfold requestAnimationFrame, bind, modify, exec at 1 2 3 4. simpl.
  rewrite (K _ running), (K _ frames), (K _ next_frame); auto.
Qed.

Lemma create_requests (env : Env) (m : string) (tnow : Q) (s0 : State) :
  let s := exec (createParticleEngine host env m tnow) s0 in
  running s = true /\ rafId s = Some (next_frame s0)
  /\ frames s = frames s0 ++ [next_frame s0].
Proof.
  unfold createParticleEngine.
  repeat (rewrite ?exec_bind, ?eval_bind, ?eval_gets, ?exec_gets, ?exec_modify).
  set (s1 := set_rafId None _).
  set (s2 := exec (setMode host env (mode s1)) s1).
  assert (Hr : running s2 = true) by (unfold s2; rewrite keeps_setMode; reflexivity).
  assert (Hf : frames s2 = frames s0) by (unfold s2; rewrite keeps_setMode; reflexivity).
  assert (Hn : next_frame s2 = next_frame s0) by (unfold s2; rewrite keeps_setMode; reflexivity).
  unfold requestAnimationFrame, exec, eval. simpl.
  rewrite Hr, Hf, Hn. auto.
Qed.

Lemma filter_single (h : positive) :
  filter (fun k => negb (Pos.eqb k h)) [h] = [].
Proof. simpl. rewrite Pos.eqb_refl. reflexivity. Qed.

Lemma handle_sched_ok (env : Env) (ev : Event) (s : State) :
  sched_ok s -> sched_ok (exec (handle host env ev) s).
Proof.
  intros Hs. destruct ev as [h now| |tnow|m|]; simpl.
  - (* a frame runs *)
    unfold frame. rewrite exec_bind, eval_gets, exec_gets.
    destruct Hs as [(Hrun & h0 & Hid & Hfr)|(Hrun & Hid & Hfr)]; rewrite Hfr; simpl.
    + destruct (Pos.eqb h h0) eqn:E; simpl.
      * apply Pos.eqb_eq in E; subst h0.
        rewrite exec_bind, exec_modify. rewrite Hfr, filter_single.
        destruct (step_requests env now (set_frames [] s) Hrun) as (R1 & R2 & R3 & _).
        left. split; [exact R1|]. eexists. split; [exact R2|exact R3].
      * rewrite exec_ret. left. split; [assumption|]. exists h0. auto.
    + rewrite exec_ret. right. auto.
  - (* pause *)
    right. unfold pause, clearRect, cancelAnimationFrame.
    destruct Hs as [(Hrun & h0 & Hid & Hfr)|(Hrun & Hid & Hfr)];
      unfold exec, bind, modify, gets; simpl; rewrite Hid; simpl.
    + rewrite Hfr, filter_single. auto.
    + auto.
  - (* resume *)
    unfold resume. rewrite exec_bind, eval_gets, exec_gets.
    destruct Hs as [(Hrun & h0 & Hid & Hfr)|(Hrun & Hid & Hfr)]; rewrite Hrun.
    + rewrite andb_false_r, exec_ret. left. split; [assumption|]. exists h0; auto.
    + destruct (prefersReduced host); simpl.
      * rewrite exec_ret. right. auto.
      * left. unfold requestAnimationFrame, exec, bind, modify; simpl.
        rewrite Hfr. split; [reflexivity|]. eexists; split; reflexivity.
  - (* setMode *)
    assert (E1 : running (exec (setMode host env m) s) = running s)
      by (apply keeps_setMode; reflexivity).
    assert (E2 : rafId (exec (setMode host env m) s) = rafId s)
      by (apply keeps_setMode; reflexivity).
    assert (E3 : frames (exec (setMode host env m) s) = frames s)
      by (apply keeps_setMode; reflexivity).
    unfold sched_ok. rewrite E1, E2, E3. exact Hs.
  - (* reflow *)
    assert (E1 : running (exec (reflow env) s) = running s)
      by (apply keeps_reflow; reflexivity).
    assert (E2 : rafId (exec (reflow env) s) = rafId s)
      by (apply keeps_reflow; reflexivity).
    assert (E3 : frames (exec (reflow env) s) = frames s)
      by (apply keeps_reflow; reflexivity).
    unfold sched_ok. rewrite E1, E2, E3. exact Hs.
Qed.

Lemma reachable_sched_ok (s : State) : reachable host s -> sched_ok s.
Proof.
  induction 1 as [env m tnow s0 H0|env ev s _ IH].
  - destruct (create_requests env m tnow s0) as (R1 & R2 & R3).
    left. split; [exact R1|]. eexists. split; [exact R2|].
    rewrite R3, H0. reflexivity.
  - apply handle_sched_ok; assumption.
Qed.

End Scheduling.

(** ** A host and a page to run the engine on

    The results of [Math.random()] cycle through 0, 0.1, ..., 0.9.
    [Math.hypot] is exact on the axes; [Math.sin] and [Math.cos] are
    taken at their values in 0 (nothing stated with this host depends
    on them: they only add to the horizontal velocity and place the
    flares). *)

Definition sample_random (n : nat) : Q := Z.of_nat (n mod 10) # 10.

Definition sample_host (reduced : bool) : Host :=
  {| Math_sin := fun _ => 0;
     Math_cos := fun _ => 1;
     Math_hypot := fun a b => Qabs a + Qabs b;
     Math_random := sample_random;
     prefersReduced := reduced |}.

(** An 800 by 600 surface, the pointer at rest in the top left corner,
    particle interaction switched on, no leaf image loaded. *)
Definition sample_env : Env :=
  {| width := 800; height := 600;
     mouse := Mouse.mk 0 0 0 0 false;
     particlesToggle_checked := true;
     images_leaf1 := false; images_leaf2 := false |}.

(** [Math.random()] returns a number in [0, 1). *)
Definition random_unit (host : Host) : Prop :=
  forall n, 0 <= Math_random host n /\ Math_random host n < 1.

Lemma sample_random_unit (reduced : bool) : random_unit (sample_host reduced).
Proof.
  intro n. cbn [Math_random sample_host]. unfold sample_random.
  assert (H : (0 <= Z.of_nat (n mod 10) < 10)%Z).
  { pose proof (Nat.mod_upper_bound n 10). lia. }
  revert H. generalize (Z.of_nat (n mod 10)). intros k H.
  unfold Qle, Qlt; simpl. lia.
Qed.

(** ** C1: reduced motion *)

(** An engine that is paused stays without a pending frame as long as
    [resume] does nothing. *)
Lemma paused_stays (host : Host) (evs : list (Env * Event)) (s : State) :
  prefersReduced host = true ->
  sched_ok s -> running s = false ->
  frames (run host evs s) = [] /\ running (run host evs s) = false.
Proof.
  intros Hred. revert s. induction evs as [|[env ev] evs IH]; intros s Hok Hrun; simpl.
  - destruct Hok as [(H1 & _)|(_ & _ & H3)]; [congruence|auto].
  - apply IH.
    + apply (handle_sched_ok host env ev). assumption.
    + destruct Hok as [(H1 & _)|(_ & Hid & Hfr)]; [congruence|].
      destruct ev as [h now| |tnow|m|]; simpl.
      * unfold frame. rewrite exec_bind, eval_gets, exec_gets, Hfr. simpl. assumption.
      * unfold pause, clearRect, exec, bind, modify, gets; simpl.
        destruct (rafId s); reflexivity.
      * unfold resume. rewrite exec_bind, eval_gets, exec_gets, Hred. simpl. assumption.
      * rewrite (keeps_setMode host env running m) by reflexivity. assumption.
      * rewrite (keeps_reflow running env) by reflexivity. assumption.
Qed.

(** The half of C1 that the code keeps.  With the reduced-motion flag
    set, [resume()] has no effect at all: it changes nothing and
    requests no frame, by its guard [!prefersReduced].  So once such an
    engine is paused, whatever happens next, no frame is pending and it
    stays paused. *)
Theorem resume_reduced_motion (host : Host) :
  prefersReduced host = true ->
  (forall tnow s, resume host tnow s = (tt, s))
  /\ (forall s evs, reachable host s -> running s = false ->
        frames (run host evs s) = [] /\ running (run host evs s) = false).
Proof.
  intro Hred. split.
  - intros tnow s. unfold resume, bind, gets. rewrite Hred. reflexivity.
  - intros s evs Hreach Hrun. apply paused_stays; auto.
    apply (reachable_sched_ok host). assumption.
Qed.

Lemma resume_reduced_motion_witness :
  resume (sample_host true) 5 blank = (tt, blank).
Proof.
  exact (proj1 (resume_reduced_motion (sample_host true) eq_refl) 5 blank).
Defined.

(** C1.  With the reduced-motion flag set no frame should ever be
    requested; [resume] has the guard for it.  The constructor has
    not: its [rafId = requestAnimationFrame(step)] is unconditional.
    Here the engine is created for "prewinter" with the flag set: frame
    1 is pending as soon as it is created, and the tick the browser
    runs for it requests frame 2. *)
Theorem construction_requests_frame_when_reduced :
  prefersReduced (sample_host true) = true
  /\ (let s := exec (createParticleEngine (sample_host true) sample_env "prewinter" 0) blank in
      frames s = [1%positive] /\ rafId s = Some 1%positive
      /\ frames (exec (frame (sample_host true) sample_env 1 16) s) = [2%positive]).
Proof. vm_compute. repeat split; reflexivity. Qed.

(** ** C7: pause and resume *)

Lemma pause_exec (s : State) :
  exec pause s
  = set_canvas []
      (match rafId s with
       | Some h => set_rafId None
                     (set_frames (filter (fun k => negb (Pos.eqb k h)) (frames s))
                        (set_running false s))
       | None => set_running false s
       end).
Proof.
  unfold pause, clearRect, cancelAnimationFrame, exec, bind, modify, gets, ret; simpl.
  destruct (rafId s); reflexivity.
Qed.

Lemma pause_twice (s : State) : exec pause (exec pause s) = exec pause s.
Proof.
  rewrite (pause_exec (exec pause s)), (pause_exec s).
  destruct s as [ps rs fs run md l [h|] o g c fr nf]; reflexivity.
Qed.

Lemma resume_exec (host : Host) (tnow : Q) (s : State) :
  exec (resume host tnow) s
  = if negb (prefersReduced host) && negb (running s)
    then set_rafId (Some (next_frame s))
           (set_next_frame (Pos.succ (next_frame s))
              (set_frames (frames s ++ [next_frame s])
                 (set_last tnow (set_running true s))))
    else s.
Proof.
  unfold resume, requestAnimationFrame, exec, bind, modify, gets, ret; simpl.
  destruct (negb (prefersReduced host) && negb (running s)); reflexivity.
Qed.

(** C7.  In every state an engine can reach, at most one frame is
    pending.  [pause()] stops the engine, cancels the pending frame,
    clears [rafId] and the canvas, so that no frame can run after it,
    and a second [pause()] changes nothing.  [resume()] requests a
    frame exactly when the engine is paused and motion is not reduced,
    after setting [last] to the current time, and otherwise changes
    nothing; a second [resume()] changes nothing, and a [pause()]
    right after it leaves no frame pending. *)
Theorem pause_resume_scheduling (host : Host) (s : State) :
  reachable host s ->
  (List.length (frames s) <= 1)%nat
  /\ (let sp := exec pause s in
      running sp = false /\ rafId sp = None /\ frames sp = [] /\ canvas sp = []
      /\ (forall env h now, exec (frame host env h now) sp = sp)
      /\ exec pause sp = sp)
  /\ (forall tnow,
      let sr := exec (resume host tnow) s in
      (if negb (prefersReduced host) && negb (running s)
       then running sr = true /\ last sr = tnow
            /\ rafId sr = Some (next_frame s) /\ frames sr = [next_frame s]
       else sr = s)
      /\ (forall tnow', exec (resume host tnow') sr = sr)
      /\ frames (exec pause sr) = []).
Proof.
  intro Hreach. pose proof (reachable_sched_ok host s Hreach) as Hok.
  split; [|split].
  - destruct Hok as [(_ & h & _ & ->)|(_ & _ & ->)]; simpl; lia.
  - assert (Hp : sched_ok (exec pause s))
      by (apply (handle_sched_ok host sample_env Pause); assumption).
    assert (Hrun : running (exec pause s) = false)
      by (rewrite pause_exec; destruct (rafId s); reflexivity).
    destruct Hp as [(H1 & _)|(_ & Hid & Hfr)]; [congruence|].
    cbv zeta. split; [exact Hrun|]. split; [exact Hid|]. split; [exact Hfr|].
    split; [|split].
    + rewrite pause_exec. reflexivity.
    + intros env h now. unfold frame.
      rewrite exec_bind, eval_gets, exec_gets, Hfr. reflexivity.
    + apply pause_twice.
  - intro tnow. cbv zeta. split; [|split].
    + rewrite resume_exec.
      destruct (negb (prefersReduced host) && negb (running s)) eqn:E.
      * simpl. destruct Hok as [(H1 & _)|(_ & _ & Hfr)].
        -- rewrite H1, andb_false_r in E. discriminate.
        -- rewrite Hfr. auto.
      * reflexivity.
    + intro tnow'. rewrite (resume_exec host tnow' _), (resume_exec host tnow s).
      destruct (negb (prefersReduced host) && negb (running s)) eqn:E.
      * simpl. rewrite andb_false_r. reflexivity.
      * rewrite E. reflexivity.
    + assert (Hr : sched_ok (exec pause (exec (resume host tnow) s))).
      { apply (handle_sched_ok host sample_env Pause).
        apply (handle_sched_ok host sample_env (Resume tnow)). assumption. }
      destruct Hr as [(H1 & _)|(_ & _ & Hfr)]; [|exact Hfr].
      rewrite pause_exec in H1.
      destruct (rafId (exec (resume host tnow) s)); discriminate.
Qed.

Lemma pause_resume_scheduling_witness :
  (List.length (frames (exec (createParticleEngine (sample_host false) sample_env "monsoon" 0) blank)) <= 1)%nat.
Proof.
  exact (proj1 (pause_resume_scheduling (sample_host false)
                  (exec (createParticleEngine (sample_host false) sample_env "monsoon" 0) blank)
                  (reach_create (sample_host false) sample_env "monsoon" 0 blank eq_refl))).
Defined.

(** ** C2: [setMode] *)

(** The six seasons and the capacity of each. *)
Definition season_capacity : list (string * nat) :=
  [("spring", 110%nat); ("summer", 100%nat); ("monsoon", 140%nat);
   ("autumn", 120%nat); ("winter", 90%nat); ("prewinter", 90%nat)].

Lemma floor_of_unit_doubled (u : Q) :
  0 <= u -> u < 1 -> Qfloor (u * (2 - 0) + 0) = 0%Z \/ Qfloor (u * (2 - 0) + 0) = 1%Z.
Proof.
  intros H0 H1.
  set (x := u * (2 - 0) + 0).
  assert (Hx0 : 0 <= x) by (unfold x; lra).
  assert (Hx2 : x < 2) by (unfold x; lra).
  assert (Hlo : (0 <= Qfloor x)%Z).
  { change 0%Z with (Qfloor 0). apply Qfloor_resp_le. exact Hx0. }
  assert (Hhi : (Qfloor x < 2)%Z).
  { pose proof (Qfloor_le x) as Hf.
    assert (Hq : inject_Z (Qfloor x) < inject_Z 2) by (eapply Qle_lt_trans; eauto).
    rewrite <- Zlt_Qlt in Hq. exact Hq. }
  lia.
Qed.

Lemma seeded_flares_count (host : Host) (env : Env) (s : State) :
  random_unit host -> flares s = [] ->
  List.length (flares (exec (seed_flares host env) s)) = 2%nat
  \/ List.length (flares (exec (seed_flares host env) s)) = 3%nat.
Proof.
  intros Hu Hf. unfold seed_flares.
  rewrite exec_bind. rewrite flare_pushes_length.
  assert (Hf' : flares (exec (rnd host 0 2) s) = []) by (rewrite keeps_rnd; auto).
  rewrite Hf'. simpl.
  unfold rnd, random, eval, bind, ret; simpl.
  destruct (Hu (rng s)) as [H0 H1].
  unfold Math.floor.
  destruct (floor_of_unit_doubled _ H0 H1) as [E|E]; rewrite E; [left|right];
    reflexivity.
Qed.

(** C2, as the code has it.  For each of the six seasons, [setMode]
    rebuilds the pool to the capacity of the season exactly (each slot
    a particle of its own), and rebuilds the flare list: empty, except
    for summer where 2 or 3 flares are seeded.  The ripple list is not
    touched: the ripples on the canvas survive the switch. *)
Theorem setMode_pool_and_lists (host : Host) (env : Env) (m : string) (n : nat)
    (s : State) :
  random_unit host -> In (m, n) season_capacity ->
  let s' := exec (setMode host env m) s in
  List.length (parts s') = n /\ wf s' /\ mode s' = m
  /\ ripples s' = ripples s
  /\ (if String.eqb m "summer"
      then List.length (flares s') = 2%nat \/ List.length (flares s') = 3%nat
      else flares s' = []).
Proof.
  intros Hu Hin s'.
  assert (Hcount : init_count (maxCounts m) = n).
  { simpl in Hin.
    repeat (destruct Hin as [Hin|Hin]; [injection Hin as <- <-; reflexivity|]).
    contradiction. }
  assert (Hrip : ripples s' = ripples s)
    by (unfold s'; rewrite keeps_setMode; reflexivity).
  assert (Hmode : mode s' = m)
    by (unfold s'; rewrite setMode_unfold;
        destruct (String.eqb m "summer");
        [ rewrite keeps_seed_flares by reflexivity | rewrite exec_ret ];
        simpl; rewrite (keeps_init host env mode) by reflexivity; reflexivity).
  unfold s' in *. rewrite setMode_unfold in *. rewrite Hcount in *.
  set (s1 := exec (init host env n) (set_mode m s)) in *.
  destruct (init_spec host env n (set_mode m s)) as (Hwf & Hlen & _).
  fold s1 in Hwf, Hlen.
  assert (Hparts : forall c : M unit, keeps parts c -> keeps objs c ->
            List.length (parts (exec c (set_flares [] s1))) = n
            /\ wf (exec c (set_flares [] s1))).
  { intros c Kp Ko. unfold wf. rewrite Kp, Ko. simpl. auto. }
  destruct (String.eqb m "summer").
  - destruct (Hparts (seed_flares host env)) as [L Wf];
      [ intro; apply keeps_seed_flares; reflexivity
      | intro; apply keeps_seed_flares; reflexivity | ].
    repeat split; try assumption; try apply Wf.
    apply seeded_flares_count; [assumption|reflexivity].
  - rewrite exec_ret in *. unfold wf. simpl. repeat split; try assumption; apply Hwf.
Qed.

Lemma setMode_pool_and_lists_witness :
  List.length (parts (exec (setMode (sample_host false) sample_env "summer") blank)) = 100%nat.
Proof.
  exact (proj1 (setMode_pool_and_lists (sample_host false) sample_env "summer" 100 blank
                  (sample_random_unit false) (or_intror (or_introl eq_refl)))).
Defined.

(** C2 as stated fails for the ripple list: a ripple on the canvas is
    still there after [setMode("spring")]. *)
Lemma setMode_keeps_ripples :
  ripples (exec (setMode (sample_host false) sample_env "spring")
             (set_ripples [Ripple.mk 100 597 2 0.35] blank))
  = [Ripple.mk 100 597 2 0.35].
Proof. vm_compute. reflexivity. Qed.

(** ** C4: a season outside the six *)

Definition seasons : list string := map fst season_capacity.

Lemma unknown_season_tests (m : string) :
  ~ In m seasons ->
  String.eqb m "spring" = false /\ String.eqb m "summer" = false
  /\ String.eqb m "monsoon" = false /\ String.eqb m "autumn" = false
  /\ String.eqb m "winter" = false /\ String.eqb m "prewinter" = false.
Proof.
  intro H. simpl in H.
  repeat split; apply String.eqb_neq; intro E; apply H; subst; tauto.
Qed.

Lemma setMode_mode (host : Host) (env : Env) (m : string) (s : State) :
  mode (exec (setMode host env m) s) = m.
Proof.
  rewrite setMode_unfold.
  destruct (String.eqb m "summer");
    [ rewrite keeps_seed_flares by reflexivity | rewrite exec_ret ];
    simpl; rewrite (keeps_init host env mode) by reflexivity; reflexivity.
Qed.


(** The particle built by the last branch of [newParticle] from the
    random numbers that follow position [n]. *)
Definition newParticle_else (host : Host) (env : Env) (n : nat) : Particle.t :=
  let u k := Math_random host (n + k) in
  let p := Particle.mk (u 0%nat * (logicalW env - 0) + 0)
             (u 1%nat * (logicalH env + 60 - -60) + -60) 0 0 1
             (u 2%nat * (Math.PI * 2 - 0) + 0)
             (u 3%nat * (0.05 - -0.05) + -0.05) dot 1 "#fff"
             (u 4%nat * (1.2 - 0.4) + 0.4) in
  if ltb (u 5%nat) 0.12 then
    Particle.set_color "rgba(255,120,60,0.9)"
      (Particle.set_vy (u 8%nat * (-0.02 - -0.06) + -0.06)
         (Particle.set_vx (u 7%nat * (0.05 - -0.05) + -0.05)
            (Particle.set_r (u 6%nat * (2.4 - 1.2) + 1.2)
               (Particle.set_type ember p))))
  else
    Particle.set_color "rgba(240,248,255,0.96)"
      (Particle.set_vy (u 8%nat * (0.32 - 0.08) + 0.08)
         (Particle.set_vx (u 7%nat * (0.2 - -0.2) + -0.2)
            (Particle.set_r (u 6%nat * (3.8 - 1.4) + 1.4)
               (Particle.set_type snow p)))).

Lemma newParticle_object_else (host : Host) (env : Env) (s : State) :
  String.eqb (mode s) "spring" = false /\ String.eqb (mode s) "summer" = false
  /\ String.eqb (mode s) "monsoon" = false /\ String.eqb (mode s) "autumn" = false
  /\ String.eqb (mode s) "prewinter" = false ->
  eval (newParticle_object host env) s = newParticle_else host env (rng s).
Proof.
  intros (E1 & E2 & E3 & E4 & E6).
  unfold newParticle_object, newParticle_else, rnd, random, bind, gets, ret, eval.
  cbn [fst snd rng mode set_rng].
  rewrite E1, E2, E3, E4, E6. cbn [fst snd rng mode set_rng].
  rewrite !Nat.add_0_r.
  replace (rng s + 1)%nat with (S (rng s)) by lia.
  replace (rng s + 2)%nat with (S (S (rng s))) by lia.
  replace (rng s + 3)%nat with (S (S (S (rng s)))) by lia.
  replace (rng s + 4)%nat with (S (S (S (S (rng s))))) by lia.
  replace (rng s + 5)%nat with (S (S (S (S (S (rng s)))))) by lia.
  replace (rng s + 6)%nat with (S (S (S (S (S (S (rng s))))))) by lia.
  replace (rng s + 7)%nat with (S (S (S (S (S (S (S (rng s)))))))) by lia.
  replace (rng s + 8)%nat with (S (S (S (S (S (S (S (S (rng s))))))))) by lia.
  destruct (ltb _ 0.12); reflexivity.
Qed.

Lemma create_mode (host : Host) (env : Env) (m : string) (tnow : Q) (s : State) :
  mode (exec (createParticleEngine host env m tnow) s)
  = if String.eqb m "" then "prewinter" else m.
Proof.
  unfold createParticleEngine.
  repeat (rewrite ?exec_bind, ?eval_bind, ?eval_gets, ?exec_gets, ?exec_modify).
  set (s1 := set_rafId None _).
  change (mode (exec (setMode host env (mode s1)) s1)
          = if String.eqb m "" then "prewinter" else m).
  rewrite setMode_mode. reflexivity.
Qed.

(** C4, as the code has it.  For a season outside the six,
    [newParticle] takes its last branch, the one of winter: the
    particle built is the one winter would build from the same random
    numbers, an ember or a snow flake.  [setMode] sizes the pool to 90
    (the capacity of winter and of prewinter) unless the name is one of
    the members every object inherits, and a tick applies no season
    force.  An empty name given to the constructor is replaced by
    prewinter.  All of it without any error: the operations return a
    state. *)
Theorem unknown_season_fallback (host : Host) (env : Env) (m : string) (s : State) :
  ~ In m seasons ->
  eval (newParticle_object host env) (set_mode m s)
  = eval (newParticle_object host env) (set_mode "winter" s)
  /\ (Particle.type (eval (newParticle_object host env) (set_mode m s)) = ember
      \/ Particle.type (eval (newParticle_object host env) (set_mode m s)) = snow)
  /\ (existsb (String.eqb m) Object_prototype_keys = false ->
      List.length (parts (exec (setMode host env m) s)) = 90%nat)
  /\ (forall now dt v, season_forces host env m now dt v = v)
  /\ (forall tnow, mode (exec (createParticleEngine host env "" tnow) s) = "prewinter").
Proof.
  intro Hm.
  destruct (unknown_season_tests m Hm) as (E1 & E2 & E3 & E4 & E5 & E6).
  split; [|split; [|split; [|split]]].
  - rewrite (newParticle_object_else host env (set_mode m s)) by (simpl; auto).
    rewrite (newParticle_object_else host env (set_mode "winter" s) ) by (simpl; auto).
    reflexivity.
  - rewrite (newParticle_object_else host env (set_mode m s)) by (simpl; auto).
    unfold newParticle_else. cbv zeta.
    destruct (ltb _ 0.12); simpl; auto.
  - intro Hk. rewrite setMode_unfold, E2, exec_ret.
    assert (Hc : init_count (maxCounts m) = 90%nat).
    { unfold maxCounts. rewrite E1, E2, E3, E4, E5, E6, Hk. reflexivity. }
    rewrite Hc. generalize 90%nat. intro n.
    destruct (init_spec host env n (set_mode m s)) as (_ & Hlen & _). exact Hlen.
  - intros now dt v. unfold season_forces. rewrite E1, E2, E3, E4, E5, E6. reflexivity.
  - intro tnow. apply create_mode.
Qed.

Lemma unknown_season_fallback_witness :
  List.length (parts (exec (setMode (sample_host false) sample_env "harvest") blank)) = 90%nat.
Proof.
  refine (proj1 (proj2 (proj2 (unknown_season_fallback (sample_host false) sample_env
                                 "harvest" blank _))) eq_refl).
  simpl. intros [H|[H|[H|[H|[H|[H|[]]]]]]]; discriminate H.
Defined.

(** C4 as stated fails: from the same random numbers, an unknown
    season builds a snow flake where prewinter builds a dew drop. *)
Lemma unknown_season_is_not_prewinter :
  Particle.type (eval (newParticle_object (sample_host false) sample_env)
                   (set_mode "harvest" blank)) = snow
  /\ Particle.type (eval (newParticle_object (sample_host false) sample_env)
                      (set_mode "prewinter" blank)) = dewdrop.
Proof. vm_compute. split; reflexivity. Qed.

(** ** C3: the pointer force *)

Lemma Qle_bool_false (a b : Q) : Qle_bool a b = false -> b < a.
Proof.
  intro H. apply Qnot_le_lt. intro Hle. apply Qle_bool_iff in Hle. congruence.
Qed.

Lemma max_spec (a b : Q) : (a <= b /\ Math.max a b = b) \/ (b < a /\ Math.max a b = a).
Proof.
  unfold Math.max. destruct (Qle_bool a b) eqn:E.
  - left. split; [apply Qle_bool_iff; assumption|reflexivity].
  - right. split; [apply Qle_bool_false; assumption|reflexivity].
Qed.

Lemma min_spec (a b : Q) : (a <= b /\ Math.min a b = a) \/ (b < a /\ Math.min a b = b).
Proof.
  unfold Math.min. destruct (Qle_bool a b) eqn:E.
  - left. split; [apply Qle_bool_iff; assumption|reflexivity].
  - right. split; [apply Qle_bool_false; assumption|reflexivity].
Qed.

Lemma or_num_pos (h : Q) : 0 <= h -> 0 < or_num h 1.
Proof.
  intro H. unfold or_num. destruct (Qeq_bool h 0) eqn:E.
  - reflexivity.
  - apply Qeq_bool_neq in E. apply Qle_lteq in H. destruct H as [H|H]; [assumption|].
    exfalso. apply E. symmetry. assumption.
Qed.

Section PointerForce.
Variable host : Host.
Variable env : Env.

Lemma influence_range (dist : Q) :
  0 <= dist -> 0 <= influence host env dist /\ influence host env dist <= 1.
Proof.
  intro Hd. unfold influence.
  destruct (particlesToggle_checked env && negb (prefersReduced host)).
  - destruct (max_spec 0 (1 - dist / 180)) as [[H ->]|[H ->]].
    + split; [assumption|]. 
      assert (0 <= dist / 180) by (apply Qle_shift_div_l; lra). lra.
    + lra.
  - lra.
Qed.

Lemma influence_beyond (dist : Q) :
  180 <= dist -> influence host env dist == 0.
Proof.
  intro Hd. unfold influence.
  destruct (particlesToggle_checked env && negb (prefersReduced host)); [|reflexivity].
  assert (1 <= dist / 180) by (apply Qle_shift_div_l; lra).
  destruct (max_spec 0 (1 - dist / 180)) as [[H0 ->]|[H0 ->]]; lra.
Qed.

Lemma influence_within (dist : Q) :
  particlesToggle_checked env = true -> prefersReduced host = false ->
  dist < 180 -> influence host env dist == 1 - dist / 180 /\ 0 < influence host env dist.
Proof.
  intros Ht Hr Hd. unfold influence. rewrite Ht, Hr. simpl.
  assert (dist / 180 < 1) by (apply Qlt_shift_div_r; lra).
  destruct (max_spec 0 (1 - dist / 180)) as [[H0 ->]|[H0 ->]]; lra.
Qed.

Lemma toward_pointer (d dist infl mv : Q) :
  0 < dist -> 0 <= infl -> mv == 0 ->
  ((- d) / dist * 0.04 * infl + mv * 0.002 * infl) * d <= 0.
Proof.
  intros Hdist Hinfl Hmv. rewrite Hmv. unfold Qdiv.
  assert (Hq : 0 < / dist) by (apply Qinv_lt_0_compat; assumption).
  assert (H1 : 0 <= d * d) by nra.
  assert (H2 : 0 <= / dist * infl) by nra.
  assert (H3 : 0 <= (d * d) * (/ dist * infl)) by (apply Qmult_le_0_compat; assumption).
  nra.
Qed.

(** Two particles that differ at most by the representation of their
    velocity and position. *)
Definition same_particle (a b : Particle.t) : Prop :=
  Particle.x a == Particle.x b /\ Particle.y a == Particle.y b
  /\ Particle.vx a == Particle.vx b /\ Particle.vy a == Particle.vy b
  /\ Particle.r a = Particle.r b /\ Particle.ang a = Particle.ang b
  /\ Particle.spin a = Particle.spin b /\ Particle.type a = Particle.type b
  /\ Particle.alpha a = Particle.alpha b /\ Particle.color a = Particle.color b
  /\ Particle.z a = Particle.z b.

(** Two particles that differ at most by the representation of their
    velocity. *)
Definition same_but_velocity (a b : Particle.t) : Prop :=
  Particle.x a = Particle.x b /\ Particle.y a = Particle.y b
  /\ Particle.vx a == Particle.vx b /\ Particle.vy a == Particle.vy b
  /\ Particle.r a = Particle.r b /\ Particle.ang a = Particle.ang b
  /\ Particle.spin a = Particle.spin b /\ Particle.type a = Particle.type b
  /\ Particle.alpha a = Particle.alpha b /\ Particle.color a = Particle.color b
  /\ Particle.z a = Particle.z b.

Ltac same_fields :=
  cbn [Particle.x Particle.y Particle.vx Particle.vy Particle.r Particle.ang
       Particle.spin Particle.type Particle.alpha Particle.color Particle.z
       Particle.set_x Particle.set_y Particle.set_vx Particle.set_vy
       Particle.set_ang];
  repeat split; try reflexivity.

Lemma season_forces_same (m : string) (now dt : Q) (u v : Particle.t) :
  same_but_velocity u v ->
  same_but_velocity (season_forces host env m now dt u)
                    (season_forces host env m now dt v).
Proof.
  destruct u as [ux uy uvx uvy ur ua us ut ual uc uz].
  destruct v as [x y vx vy r a sp t al c z].
  unfold same_but_velocity. cbn [Particle.x Particle.y Particle.vx Particle.vy
    Particle.r Particle.ang Particle.spin Particle.type Particle.alpha
    Particle.color Particle.z].
  intros (-> & -> & Hvx & Hvy & -> & -> & -> & -> & -> & -> & ->).
  unfold season_forces.
  destruct (String.eqb m "spring"); [same_fields; rewrite ?Hvx, ?Hvy; reflexivity|].
  destruct (String.eqb m "summer"); [same_fields; rewrite ?Hvx, ?Hvy; reflexivity|].
  destruct (String.eqb m "monsoon"); [same_fields; rewrite ?Hvx, ?Hvy; reflexivity|].
  destruct (String.eqb m "autumn"); [same_fields; rewrite ?Hvx, ?Hvy; reflexivity|].
  destruct (String.eqb m "prewinter").
  { cbn [Particle.type]. destruct (Kind_eqb t mist);
      same_fields; try assumption; rewrite ?Hvx, ?Hvy; reflexivity. }
  destruct (String.eqb m "winter").
  { cbn [Particle.type]. destruct (Kind_eqb t ember);
      same_fields; rewrite ?Hvx, ?Hvy; reflexivity. }
  same_fields; assumption.
Qed.

Lemma damping_same (u v : Particle.t) :
  same_but_velocity u v -> same_but_velocity (damping u) (damping v).
Proof.
  intros (Hx & Hy & Hvx & Hvy & Hr & Ha & Hs & Ht & Hal & Hc & Hz).
  unfold same_but_velocity, damping.
  cbn [Particle.x Particle.y Particle.vx Particle.vy Particle.r Particle.ang
       Particle.spin Particle.type Particle.alpha Particle.color Particle.z
       Particle.set_vx Particle.set_vy].
  repeat split; try assumption; rewrite ?Hvx, ?Hvy; reflexivity.
Qed.

Lemma integration_same (dt : Q) (u v : Particle.t) :
  same_but_velocity u v -> same_particle (integration dt u) (integration dt v).
Proof.
  intros (Hx & Hy & Hvx & Hvy & Hr & Ha & Hs & Ht & Hal & Hc & Hz).
  unfold same_particle, integration.
  cbn [Particle.x Particle.y Particle.vx Particle.vy Particle.r Particle.ang
       Particle.spin Particle.type Particle.alpha Particle.color Particle.z
       Particle.set_x Particle.set_y].
  rewrite Hx, Hy, Hz.
  repeat split; try assumption; rewrite ?Hvx, ?Hvy; reflexivity.
Qed.

Lemma after_wind_same (m : string) (now dt : Q) (u v : Particle.t) :
  same_but_velocity u v ->
  same_particle (integration dt (damping (season_forces host env m now dt u)))
                (integration dt (damping (season_forces host env m now dt v))).
Proof.
  intro H. apply integration_same, damping_same, season_forces_same, H.
Qed.
End PointerForce.

(** C3, as the code has it.  On every tick the velocity of a particle
    receives a term along the line to the pointer and a term along the
    pointer's velocity, both weighted by [influence]: 1 - dist/180 within
    180 units, exactly zero at 180 and beyond, and zero when the toggle
    is off or motion is reduced.  With the pointer at rest the term
    added to each velocity component has the sign opposite to the
    particle's offset from the pointer: it pulls the particle toward the
    pointer.  With the toggle off (or motion reduced) the update of a
    tick is the update without any pointer term. *)
Theorem pointer_force (host : Host) (env : Env) (v : Particle.t) :
  let dx := Particle.x v - Mouse.x (mouse env) in
  let dy := Particle.y v - Mouse.y (mouse env) in
  let dist := mouse_dist host env v in
  let infl := influence host env dist in
  let w := mouse_wind host env v in
  0 <= Math_hypot host dx dy ->
  (Particle.vx w = Particle.vx v + ((- dx) / dist * 0.04 * infl
                                    + Mouse.vx (mouse env) * 0.002 * infl)
   /\ Particle.vy w = Particle.vy v + ((- dy) / dist * 0.02 * infl
                                       + Mouse.vy (mouse env) * 0.002 * infl))
  /\ (0 < dist /\ 0 <= infl /\ infl <= 1)
  /\ (180 <= dist ->
      infl == 0 /\ Particle.vx w == Particle.vx v /\ Particle.vy w == Particle.vy v)
  /\ (particlesToggle_checked env = true -> prefersReduced host = false ->
      dist < 180 -> infl == 1 - dist / 180 /\ 0 < infl)
  /\ (particlesToggle_checked env = false \/ prefersReduced host = true -> infl = 0)
  /\ (Mouse.vx (mouse env) == 0 -> (Particle.vx w - Particle.vx v) * dx <= 0)
  /\ (Mouse.vy (mouse env) == 0 -> (Particle.vy w - Particle.vy v) * dy <= 0)
  /\ (particlesToggle_checked env = false \/ prefersReduced host = true ->
      forall m now dt,
        same_particle (physics host env m now dt v)
          (integration dt (damping (season_forces host env m now dt v)))).
Proof.
  intros dx dy dist infl w Hh.
  assert (Hdist : 0 < dist) by (apply or_num_pos; exact Hh).
  destruct (influence_range host env dist) as [Hi0 Hi1]; [lra|].
  fold infl in Hi0, Hi1.
  assert (Hoff : particlesToggle_checked env = false \/ prefersReduced host = true ->
                 infl = 0).
  { intros [H|H]; unfold infl, influence; rewrite H;
      [reflexivity | rewrite andb_false_r; reflexivity]. }
  split; [split; reflexivity|].
  split; [auto|].
  split.
  { intro Hfar. pose proof (influence_beyond host env dist Hfar) as Hz.
    fold infl in Hz. split; [exact Hz|].
    split; unfold w, mouse_wind; simpl; fold dist; fold infl; rewrite Hz; lra. }
  split; [apply influence_within|].
  split; [exact Hoff|].
  split.
  { intro Hm. unfold w, mouse_wind. simpl. fold dx. fold dist. fold infl.
    pose proof (toward_pointer dx dist infl _ Hdist Hi0 Hm) as H.
    set (T := _ + _ * 0.002 * infl) in *.
    assert (E : (Particle.vx v + T - Particle.vx v) * dx == T * dx) by ring.
    rewrite E. exact H. }
  split.
  { intro Hm. unfold w, mouse_wind. simpl. fold dy. fold dist. fold infl.
    assert (H2 : 0 <= infl * 0.5) by lra.
    pose proof (toward_pointer dy dist (infl * 0.5) _ Hdist H2 Hm) as H.
    set (T := _ + _ * 0.002 * infl).
    assert (E : (Particle.vy v + T - Particle.vy v) * dy == T * dy) by ring.
    rewrite E. unfold T. rewrite Hm in *.
    assert (E2 : (- dy / dist * 0.02 * infl + 0 * 0.002 * infl) * dy
                 == (- dy / dist * 0.04 * (infl * 0.5) + 0 * 0.002 * (infl * 0.5)) * dy)
      by ring.
    rewrite E2. exact H. }
  intros Hcase m now dt. unfold physics.
  apply after_wind_same. unfold same_but_velocity, mouse_wind.
  cbn [Particle.x Particle.y Particle.vx Particle.vy Particle.r Particle.ang
       Particle.spin Particle.type Particle.alpha Particle.color Particle.z
       Particle.set_vx Particle.set_vy].
  fold dist. fold infl. rewrite (Hoff Hcase).
  repeat split; try reflexivity; ring.
Qed.


Lemma pointer_force_witness :
  0 < mouse_dist (sample_host false) sample_env (Particle.mk 10 0 0 0 1 0 0 rain 1 "#fff" 1).
Proof.
  refine (proj1 (proj1 (proj2 (pointer_force (sample_host false) sample_env
            (Particle.mk 10 0 0 0 1 0 0 rain 1 "#fff" 1) _)))).
  vm_compute. discriminate.
Defined.

(** C3 as stated fails on the direction: a particle at rest 10 units
    to the right of the pointer (at rest too) is given a velocity to the
    left, toward the pointer. *)
Lemma pointer_force_pulls_toward_pointer :
  Mouse.x (mouse sample_env) < 10
  /\ Particle.vx (mouse_wind (sample_host false) sample_env
                    (Particle.mk 10 0 0 0 1 0 0 rain 1 "#fff" 1)) < 0.
Proof. vm_compute. split; reflexivity. Qed.

(** ** C8: the elapsed time, damping and integration *)






(** What a slot holds after a tick when its particle stayed on
    screen. *)
Lemma slot_after_stays (host : Host) (env : Env) (m : string) (now dt : Q)
    (v r : Particle.t) :
  slot_after host env m now dt v r ->
  offscreen env (physics host env m now dt v) = false ->
  r = physics host env m now dt v.
Proof.
  unfold slot_after.
  destruct (offscreen env (physics host env m now dt v)); intros H Hoff;
    [discriminate Hoff | exact H].
Qed.



(** A running monsoon engine with two rain drops, one of them just
    above the bottom edge of the 800 by 600 surface. *)
Definition drop_a : Particle.t :=
  Particle.mk 100 599 0 1 1.2 0 0 rain 1 "rgba(170,210,240,0.98)" 1.
Definition drop_b : Particle.t :=
  Particle.mk 400 300 0 1 1.2 0 0 rain 1 "rgba(170,210,240,0.98)" 1.

Definition sample_state : State :=
  mkState [0%nat; 1%nat] [] [] true "monsoon" 0 (Some 1%positive)
    [drop_a; drop_b] 0 [] [1%positive] 2.

Lemma sample_state_wf : wf sample_state.
Proof.
  split; simpl.
  - repeat constructor; simpl; intuition discriminate.
  - repeat constructor.
Qed.


(** ** C6: recycling and the size of the pool *)

Definition pool_size (s : State) : nat := List.length (parts s).

Lemma recycle_pool_size (host : Host) (env : Env) (p : ref) (s : State) :
  pool_size (exec (recycle host env p) s) = pool_size s.
Proof.
  unfold exec, pool_size. rewrite recycle_spec. simpl.
  destruct (indexOf p (parts s)); [apply set_nth_length|reflexivity].
Qed.

(** A turn of the loop leaves the array as long as it was, whatever
    the array holds. *)
Lemma keeps_pool_size_visit (host : Host) (env : Env) (now dt : Q) (i : nat) :
  keeps pool_size (visit host env now dt i).
Proof.
  unfold visit.
  repeat match goal with
         | |- keeps _ (recycle _ _ _) => intro; apply recycle_pool_size
         | |- keeps _ (draw _ _ _) => apply keeps_draw; reflexivity
         | |- keeps _ (store _ _) => apply keeps_store; reflexivity
         | _ => keeps_step
         end.
Qed.

Lemma keeps_pool_size_step (host : Host) (env : Env) (now : Q) :
  keeps pool_size (step host env now).
Proof.
  unfold step, clearRect.
  repeat match goal with
         | |- keeps _ (visit _ _ _ _ _) => apply keeps_pool_size_visit
         | |- keeps _ (drawFlares _ _) => apply keeps_drawFlares; reflexivity
         | |- keeps _ (ripple_loop _) => apply keeps_ripple_loop; reflexivity
         | |- keeps _ requestAnimationFrame => intro; reflexivity
         | _ => keeps_step
         end.
Qed.

(** Only [setMode] changes the size of the pool. *)
Lemma keeps_pool_size_handle (host : Host) (env : Env) (ev : Event) :
  (forall m, ev <> SetMode m) -> keeps pool_size (handle host env ev).
Proof.
  intro Hev. destruct ev as [h now| |tnow|m|]; simpl.
  - unfold frame.
    repeat match goal with
           | |- keeps _ (step _ _ _) => apply keeps_pool_size_step
           | _ => keeps_step
           end.
  - unfold pause, clearRect, cancelAnimationFrame. keeps_tac.
  - unfold resume.
    repeat match goal with
           | |- keeps _ requestAnimationFrame => intro; reflexivity
           | _ => keeps_step
           end.
  - exfalso. apply (Hev m). reflexivity.
  - apply keeps_reflow. reflexivity.
Qed.

Lemma respawn_value (host : Host) (env : Env) (s : State) :
  exists w n,
    made host env (mode s) w
    /\ eval (respawn host env) s
       = Particle.set_y (-10 - Math_random host (S n) * 40)
           (Particle.set_x (Math_random host n * logicalW env) w).
Proof.
  exists (eval (newParticle_object host env) s),
         (rng (exec (newParticle_object host env) s)).
  split; [exists s; auto|].
  unfold respawn. rewrite !eval_bind, eval_ret. reflexivity.
Qed.

Lemma logicalW_pos (env : Env) : 0 < logicalW env.
Proof. unfold logicalW, Qlt. simpl. lia. Qed.

Lemma logicalH_pos (env : Env) : 0 < logicalH env.
Proof. unfold logicalH, Qlt. simpl. lia. Qed.

(** A recycled particle is a new one of the active mode, placed at a
    random abscissa of the surface, between 10 and 50 units above its
    top edge. *)
Lemma recycled_above_top (host : Host) (env : Env) (m : string) (r : Particle.t) :
  random_unit host -> recycled host env m r ->
  (exists w, made host env m w
             /\ Particle.type r = Particle.type w
             /\ Particle.vx r = Particle.vx w /\ Particle.vy r = Particle.vy w)
  /\ -50 < Particle.y r /\ Particle.y r <= -10
  /\ 0 <= Particle.x r /\ Particle.x r < logicalW env.
Proof.
  intros Hu (s & Hm & ->).
  destruct (respawn_value host env s) as (w & n & Hw & ->).
  rewrite Hm in Hw.
  destruct (Hu n) as [H0 H1]. destruct (Hu (S n)) as [H2 H3].
  pose proof (logicalW_pos env) as HW.
  split; [exists w; repeat split; auto|].
  cbn [Particle.x Particle.y Particle.set_x Particle.set_y].
  repeat split; try lra.
  - apply Qmult_le_0_compat; lra.
  - assert (E : Math_random host n * logicalW env < 1 * logicalW env)
      by (apply Qmult_lt_compat_r; assumption).
    lra.
Qed.

Lemma offscreen_spec (env : Env) (w : Particle.t) :
  offscreen env w = true <->
  (logicalH env + 80 < Particle.y w \/ Particle.x w < -140
   \/ logicalW env + 140 < Particle.x w \/ Particle.y w < -140).
Proof.
  unfold offscreen, gtb, ltb.
  rewrite !orb_true_iff, !negb_true_iff.
  assert (L : forall a b, Qle_bool a b = false <-> b < a).
  { intros a b. split.
    - apply Qle_bool_false.
    - intro H. destruct (Qle_bool a b) eqn:E; [|reflexivity].
      apply Qle_bool_iff in E. lra. }
  rewrite !L. tauto.
Qed.

(** C6.  A tick leaves the pool as large as it was, and so does every
    operation but [setMode].  In a tick of a running engine each slot
    ends with its own particle moved by the physics of the tick, or,
    when that particle went past the bounds (more than 80 below the
    bottom edge, 140 above the top edge or 140 beyond either side), with
    a new particle from the factory placed just above the top edge. *)
Theorem recycling_keeps_pool_size (host : Host) (env : Env) (now : Q) (s : State)
    (vs : list Particle.t) :
  random_unit host -> wf s -> running s = true -> pool s = map Some vs ->
  let dt := Math.min 40 (now - last s) in
  let s' := exec (step host env now) s in
  List.length (parts s') = List.length (parts s)
  /\ (forall s0 ev, (forall m, ev <> SetMode m) ->
        List.length (parts (exec (handle host env ev) s0)) = List.length (parts s0))
  /\ (exists vs',
        pool s' = map Some vs' /\ wf s'
        /\ Forall2 (fun v r =>
             let w := physics host env (mode s) now dt v in
             if offscreen env w
             then recycled host env (mode s) r
                  /\ -50 < Particle.y r /\ Particle.y r <= -10
                  /\ 0 <= Particle.x r /\ Particle.x r < logicalW env
             else r = w) vs vs')
  /\ (forall w, offscreen env w = true <->
        (logicalH env + 80 < Particle.y w \/ Particle.x w < -140
         \/ logicalW env + 140 < Particle.x w \/ Particle.y w < -140)).
Proof.
  intros Hu Hwf Hrun Hpool dt s'.
  split; [apply (keeps_pool_size_step host env now s)|].
  split; [intros s0 ev Hev; apply (keeps_pool_size_handle host env ev Hev s0)|].
  split; [|apply offscreen_spec].
  destruct (step_spec host env now s vs Hwf Hrun Hpool) as (vs' & Hp & Hwf' & Hs & _).
  exists vs'. split; [exact Hp|]. split; [exact Hwf'|].
  eapply Forall2_impl; [|exact Hs].
  intros v r. unfold slot_after. fold dt. cbv zeta.
  destruct (offscreen env (physics host env (mode s) now dt v)); intro H.
  - split; [exact H|].
    destruct (recycled_above_top host env (mode s) r Hu H) as (_ & Hy); exact Hy.
  - exact H.
Qed.

Lemma recycling_keeps_pool_size_witness :
  List.length (parts (exec (step (sample_host false) sample_env 16) sample_state))
  = List.length (parts sample_state).
Proof.
  exact (proj1 (recycling_keeps_pool_size (sample_host false) sample_env 16
                  sample_state [drop_a; drop_b]
                  (sample_random_unit false) sample_state_wf eq_refl eq_refl)).
Defined.

(** ** C9: [reflow] *)







(** ** C5: the first tick of a monsoon engine *)

(** The pool [setMode] builds. *)
Lemma setMode_pool (host : Host) (env : Env) (m : string) (s : State) :
  let s' := exec (setMode host env m) s in
  wf s' /\ List.length (parts s') = init_count (maxCounts m)
  /\ exists vs, pool s' = map Some vs /\ Forall (made host env m) vs.
Proof.
  cbv zeta. rewrite setMode_unfold.
  destruct (init_spec host env (init_count (maxCounts m)) (set_mode m s))
    as (Hwf & Hlen & vs & Hpool & Hall).
  set (s1 := exec (init host env _) (set_mode m s)) in *.
  assert (K : forall c : M unit, keeps parts c -> keeps objs c ->
            wf (exec c (set_flares [] s1))
            /\ List.length (parts (exec c (set_flares [] s1))) = init_count (maxCounts m)
            /\ pool (exec c (set_flares [] s1)) = map Some vs).
  { intros c Kp Ko. unfold wf, pool.
    pose proof (Kp (set_flares [] s1)) as Ep. pose proof (Ko (set_flares [] s1)) as Eo.
    simpl in Ep, Eo. rewrite Ep, Eo. split; [exact Hwf|]. split; [exact Hlen|exact Hpool]. }
  destruct (K (if String.eqb m "summer" then seed_flares host env else ret tt))
    as (W & L & P).
  - destruct (String.eqb m "summer");
      [intro; apply keeps_seed_flares; reflexivity | apply keeps_ret].
  - destruct (String.eqb m "summer");
      [intro; apply keeps_seed_flares; reflexivity | apply keeps_ret].
  - split; [exact W|]. split; [exact L|]. exists vs. split; [exact P|exact Hall].
Qed.

(** The engine as the constructor leaves it. *)
Lemma create_spec (host : Host) (env : Env) (m : string) (tnow : Q) (s0 : State) :
  let s := exec (createParticleEngine host env m tnow) s0 in
  let md := if String.eqb m "" then "prewinter" else m in
  wf s /\ running s = true /\ last s = tnow /\ mode s = md /\ ripples s = []
  /\ List.length (parts s) = init_count (maxCounts md)
  /\ exists vs, pool s = map Some vs /\ Forall (made host env md) vs.
Proof.
  cbv zeta. unfold createParticleEngine.
  repeat (rewrite ?exec_bind, ?eval_bind, ?eval_gets, ?exec_gets, ?exec_modify).
  set (s1 := set_rafId None _).
  set (md := if String.eqb m "" then "prewinter" else m).
  change (mode s1) with md.
  set (s2 := exec (setMode host env md) s1).
  destruct (setMode_pool host env md s1) as (Hwf & Hlen & vs & Hpool & Hall).
  fold s2 in Hwf, Hlen, Hpool.
  assert (Hrun : running s2 = true) by (unfold s2; rewrite keeps_setMode; reflexivity).
  assert (Hlast : last s2 = tnow) by (unfold s2; rewrite keeps_setMode; reflexivity).
  assert (Hrip : ripples s2 = []) by (unfold s2; rewrite keeps_setMode; reflexivity).
  assert (Hmode : mode s2 = md) by apply setMode_mode.
  set (s3 := set_rafId _ _).
  assert (K : forall X (f : State -> X),
            (forall a s, f (set_rafId a s) = f s) ->
            (forall a s, f (set_frames a s) = f s) ->
            (forall a s, f (set_next_frame a s) = f s) ->
            f s3 = f s2).
  { intros X f H1 H2 H3. unfold s3, requestAnimationFrame, exec, eval. simpl.
    rewrite H1, H3, H2. reflexivity. }
  unfold wf, pool.
  rewrite (K _ parts), (K _ objs), (K _ running), (K _ last), (K _ mode), (K _ ripples)
    by reflexivity.
  split; [exact Hwf|]. repeat split; try assumption.
  exists vs. split; assumption.
Qed.

Lemma newParticle_object_monsoon (host : Host) (env : Env) (s : State) :
  String.eqb (mode s) "spring" = false -> String.eqb (mode s) "summer" = false ->
  String.eqb (mode s) "monsoon" = true ->
  Particle.type (eval (newParticle_object host env) s) = rain.
Proof.
  intros E1 E2 E3.
  unfold newParticle_object, rnd, random, bind, gets, ret, eval.
  cbn [fst snd rng mode set_rng].
  rewrite E1, E2, E3. reflexivity.
Qed.

Lemma made_monsoon (host : Host) (env : Env) (v : Particle.t) :
  made host env "monsoon" v -> Particle.type v = rain.
Proof.
  intros (s & Hm & ->).
  apply newParticle_object_monsoon; rewrite Hm; reflexivity.
Qed.

(** The ripples added during a tick are all still there at its end. *)
Lemma aged_splashes (env : Env) (ws : list Particle.t) :
  aged (splashes env ws) = map age (splashes env ws).
Proof.
  unfold splashes.
  induction (filter _ ws) as [|w l IH]; [reflexivity|].
  unfold aged in *. simpl map. simpl filter.
  change (negb (leb (0.35 - 0.015) 0)) with true. cbv iota.
  f_equal. exact IH.
Qed.

Lemma physics_vy_monsoon (host : Host) (env : Env) (now dt : Q) (v : Particle.t) :
  Particle.vy (physics host env "monsoon" now dt v)
  = (Particle.vy (mouse_wind host env v) + 0.02 * (dt / 16)) * 0.997.
Proof. reflexivity. Qed.

(** A tick of a monsoon engine without ripples, 16 time units after
    [last]. *)
Lemma monsoon_tick (host : Host) (env : Env) (now : Q) (s : State)
    (vs : list Particle.t) :
  wf s -> running s = true -> mode s = "monsoon" -> ripples s = [] ->
  pool s = map Some vs -> now - last s == 16 ->
  let dt := Math.min 40 (now - last s) in
  let s' := exec (step host env now) s in
  exists vs',
    pool s' = map Some vs'
    /\ dt == 16
    /\ Forall2 (fun v r =>
         let w := physics host env "monsoon" now dt v in
         Particle.vy w == (Particle.vy (mouse_wind host env v) + 0.02 * (16 / 16)) * 0.997
         /\ (particlesToggle_checked env = false ->
             Particle.vy w == (Particle.vy v + 0.02) * 0.997)
         /\ (offscreen env w = false -> r = w)) vs vs'
    /\ ripples s'
       = map age (splashes env (map (physics host env "monsoon" now dt) vs)).
Proof.
  intros Hwf Hrun Hmode Hrip Hpool Hel dt s'.
  destruct (step_spec host env now s vs Hwf Hrun Hpool) as (vs' & Hp' & _ & Hs & Hr').
  fold dt in Hs, Hr'. fold s' in Hp', Hr'. rewrite Hmode in Hs, Hr'.
  assert (Hdt : dt == 16).
  { unfold dt. destruct (min_spec 40 (now - last s)) as [[H ->]|[H ->]]; lra. }
  exists vs'. split; [exact Hp'|]. split; [exact Hdt|].
  split.
  { eapply Forall2_impl; [|exact Hs].
    intros v r Hvr. cbv zeta.
    rewrite physics_vy_monsoon.
    split; [rewrite Hdt; reflexivity|].
    split.
    - intro Hoff.
      assert (Hi : influence host env (mouse_dist host env v) = 0)
        by (unfold influence; rewrite Hoff; reflexivity).
      unfold mouse_wind.
      cbn [Particle.vy Particle.set_vx Particle.set_vy].
      rewrite Hi, Hdt. field.
      unfold mouse_dist, or_num.
      destruct (Qeq_bool _ 0) eqn:E; intro Hz.
      + discriminate Hz.
      + apply Qeq_bool_neq in E. contradiction.
    - apply slot_after_stays. exact Hvr. }
  rewrite Hr', Hrip. simpl app. apply aged_splashes.
Qed.

(** C5, as the code has it.  In an engine constructed with season
    "monsoon" all 140 particles are rain.  After its first tick, run 16
    time units after the construction, the vertical velocity of every
    particle is the previous one (with the pointer term of the tick)
    plus the monsoon pull 0.02 times (16/16), then damped by the factor
    0.997: it has not grown by 0.02 exactly.  Every particle whose
    updated y exceeds [logicalH - 2] has added exactly one ripple, at
    its updated x and at [logicalH - 3]; these ripples, aged once by
    the drawing loop of the same tick, are the ripples of the engine. *)
Theorem monsoon_first_tick (host : Host) (env : Env) (tnow now : Q) (s0 : State) :
  now - tnow == 16 ->
  let s := exec (createParticleEngine host env "monsoon" tnow) s0 in
  let dt := Math.min 40 (now - last s) in
  let s' := exec (step host env now) s in
  exists vs vs',
    pool s = map Some vs /\ pool s' = map Some vs'
    /\ List.length vs = 140%nat
    /\ Forall (fun v => Particle.type v = rain) vs
    /\ dt == 16
    /\ Forall2 (fun v r =>
         let w := physics host env "monsoon" now dt v in
         Particle.vy w == (Particle.vy (mouse_wind host env v) + 0.02 * (16 / 16)) * 0.997
         /\ (particlesToggle_checked env = false ->
             Particle.vy w == (Particle.vy v + 0.02) * 0.997)
         /\ (offscreen env w = false -> r = w)) vs vs'
    /\ ripples s'
       = map age (splashes env (map (physics host env "monsoon" now dt) vs)).
Proof.
  intros Hel.
  assert (Hmd : (if String.eqb "monsoon" "" then "prewinter" else "monsoon") = "monsoon")
    by reflexivity.
  assert (Hcap : init_count (maxCounts "monsoon") = 140%nat) by reflexivity.
  pose proof (create_spec host env "monsoon" tnow s0) as H.
  cbv zeta in H. rewrite Hmd, Hcap in H. clear Hmd Hcap.
  revert H. generalize (exec (createParticleEngine host env "monsoon" tnow) s0).
  intros s (Hwf & Hrun & Hlast & Hmode & Hrip & Hsize & vs & Hpool & Hall).
  cbv zeta.
  assert (Hel' : now - last s == 16) by (rewrite Hlast; exact Hel).
  destruct (monsoon_tick host env now s vs Hwf Hrun Hmode Hrip Hpool Hel')
    as (vs' & Hp' & Hdt & Hs & Hr').
  exists vs, vs'. split; [exact Hpool|]. split; [exact Hp'|].
  split.
  { pose proof (f_equal (@List.length _) Hpool) as HL.
    unfold pool in HL. rewrite !length_map in HL.
    transitivity (List.length (parts s)); [symmetry; exact HL|exact Hsize]. }
  split.
  { eapply Forall_impl; [|exact Hall]. intros v Hv. apply (made_monsoon host env). exact Hv. }
  split; [exact Hdt|]. split; [exact Hs|exact Hr'].
Qed.

Lemma monsoon_first_tick_witness :
  16 - 0 == 16
  /\ exists vs vs',
       pool (exec (createParticleEngine (sample_host false) sample_env "monsoon" 0) blank)
       = map Some vs
       /\ pool (exec (step (sample_host false) sample_env 16)
                  (exec (createParticleEngine (sample_host false) sample_env "monsoon" 0)
                     blank))
          = map Some vs'
       /\ List.length vs = 140%nat.
Proof.
  assert (H : 16 - 0 == 16) by reflexivity.
  split; [exact H|].
  destruct (monsoon_first_tick (sample_host false) sample_env 0 16 blank H)
    as (vs & vs' & H1 & H2 & H3 & _).
  exists vs, vs'. auto.
Defined.

(** C5 as stated fails: with the particle interaction switched off (so
    that the pointer adds nothing), the first tick of a monsoon engine,
    16 time units after its construction, takes the vertical velocity
    of its first rain drop from 1.175 to 1.191415, not to 1.195. *)
Lemma monsoon_first_tick_is_damped :
  let env := Build_Env 800 600 (Mouse.mk 0 0 0 0 false) false false false in
  let s := exec (createParticleEngine (sample_host false) env "monsoon" 0) blank in
  let s' := exec (step (sample_host false) env 16) s in
  exists v v',
    nth_error (pool s) 0 = Some (Some v) /\ nth_error (pool s') 0 = Some (Some v')
    /\ Particle.vy v == 1.175 /\ Particle.vy v' == 1.191415
    /\ ~ Particle.vy v' - Particle.vy v == 0.02.
Proof.
  cbv zeta. eexists. eexists.
  split; [vm_compute; reflexivity|].
  split; [vm_compute; reflexivity|].
  split; [vm_compute; reflexivity|].
  split; [vm_compute; reflexivity|].
  vm_compute. discriminate.
Qed.

(** ** C10: a rain drop below the bottom line *)

Lemma onscreen_within (env : Env) (w : Particle.t) :
  Particle.y w <= logicalH env + 80 -> -140 <= Particle.x w ->
  Particle.x w <= logicalW env + 140 -> -140 <= Particle.y w ->
  offscreen env w = false.
Proof.
  intros H1 H2 H3 H4.
  destruct (offscreen env w) eqn:E; [|reflexivity].
  apply offscreen_spec in E. lra.
Qed.

Lemma In_splashes (env : Env) (ws : list Particle.t) (w : Particle.t) :
  In w ws -> Particle.type w = rain -> logicalH env - 2 < Particle.y w ->
  In (Ripple.mk (Particle.x w) (logicalH env - 3) 2 0.35) (splashes env ws).
Proof.
  intros Hin Ht Hy. unfold splashes.
  apply (in_map (fun w0 => Ripple.mk (Particle.x w0) (logicalH env - 3) 2 0.35)).
  apply filter_In. split; [exact Hin|].
  rewrite Ht. simpl. unfold gtb, ltb.
  destruct (Qle_bool (Particle.y w) (logicalH env - 2)) eqn:E; [|reflexivity].
  apply Qle_bool_iff in E. lra.
Qed.

(** A tick never changes the season. *)
Lemma keeps_mode_step (host : Host) (env : Env) (now : Q) :
  keeps mode (step host env now).
Proof.
  unfold step, clearRect.
  repeat match goal with
         | |- keeps _ (visit _ _ _ _ _) => apply keeps_visit; reflexivity
         | |- keeps _ (drawFlares _ _) => apply keeps_drawFlares; reflexivity
         | |- keeps _ (ripple_loop _) => apply keeps_ripple_loop; reflexivity
         | |- keeps _ requestAnimationFrame => intro; reflexivity
         | _ => keeps_step
         end.
Qed.

(** C10.  In every tick of a running engine, each rain particle whose
    updated y exceeds [logicalH - 2] adds one ripple at its x and at
    [logicalH - 3], whether or not it did so in an earlier tick: the
    ripples after the tick are the earlier ones aged, followed by one
    new ripple per such particle.  A particle is recycled only once it
    is off-screen (y above [logicalH + 80], or past a side or the top
    by 140): until then its slot keeps it, it is visited again by the
    next tick, and it adds a ripple again if it is still below the
    line. *)
Theorem raindrop_ripples_every_tick (host : Host) (env : Env) (now : Q) (s : State)
    (vs : list Particle.t) :
  wf s -> running s = true -> pool s = map Some vs ->
  let dt := Math.min 40 (now - last s) in
  let ws := map (physics host env (mode s) now dt) vs in
  let s' := exec (step host env now) s in
  ripples s' = aged (ripples s) ++ map age (splashes env ws)
  /\ (forall w, In w ws -> Particle.type w = rain -> logicalH env - 2 < Particle.y w ->
        In (age (Ripple.mk (Particle.x w) (logicalH env - 3) 2 0.35)) (ripples s'))
  /\ exists vs',
       pool s' = map Some vs' /\ wf s' /\ running s' = true /\ mode s' = mode s
       /\ Forall2 (fun w r =>
            Particle.y w <= logicalH env + 80 -> -140 <= Particle.x w ->
            Particle.x w <= logicalW env + 140 -> -140 <= Particle.y w ->
            r = w) ws vs'.
Proof.
  intros Hwf Hrun Hpool dt ws s'.
  destruct (step_spec host env now s vs Hwf Hrun Hpool) as (vs' & Hp' & Hwf' & Hs & Hr').
  fold dt in Hs, Hr'. fold s' in Hp', Hwf', Hr'. fold ws in Hr'.
  assert (Hrip : ripples s' = aged (ripples s) ++ map age (splashes env ws))
    by (rewrite Hr', aged_app, aged_splashes; reflexivity).
  split; [exact Hrip|]. split.
  - intros w Hin Ht Hy. rewrite Hrip. apply in_or_app. right.
    apply in_map. apply In_splashes; assumption.
  - exists vs'. split; [exact Hp'|]. split; [exact Hwf'|].
    split; [apply (step_requests host env now s Hrun)|].
    split; [apply keeps_mode_step|].
    unfold ws. clear - Hs. induction Hs as [|v r vs vs' H _ IH]; simpl; constructor.
    + intros H1 H2 H3 H4. apply slot_after_stays; [exact H|].
      apply onscreen_within; assumption.
    + exact IH.
Qed.

(** The same rain drop over three ticks in a row: it stays in its slot
    and each tick adds a ripple. *)
Lemma raindrop_ripples_every_tick_witness :
  ripples (exec (step (sample_host false) sample_env 16) sample_state)
  = aged (ripples sample_state)
    ++ map age (splashes sample_env
                  (map (physics (sample_host false) sample_env (mode sample_state) 16
                          (Math.min 40 (16 - last sample_state))) [drop_a; drop_b]))
  /\ (let s1 := run (sample_host false) [(sample_env, Frame 1 16)] sample_state in
      let s2 := run (sample_host false) [(sample_env, Frame 2 32)] s1 in
      let s3 := run (sample_host false) [(sample_env, Frame 3 48)] s2 in
      parts s3 = parts sample_state
      /\ List.length (ripples s1) = 1%nat
      /\ List.length (ripples s2) = 2%nat
      /\ List.length (ripples s3) = 3%nat).
Proof.
  split.
  - exact (proj1 (raindrop_ripples_every_tick (sample_host false) sample_env 16
                    sample_state [drop_a; drop_b] sample_state_wf eq_refl eq_refl)).
  - vm_compute. repeat split; reflexivity.
Defined.

(** * More of the engine *)

(** ** The factory *)

(** The kinds of particle [newParticle] builds in each mode. *)
Definition kinds_of (m : string) : list Kind :=
  if String.eqb m "spring" then [petal]
  else if String.eqb m "summer" then [leaf; dust]
  else if String.eqb m "monsoon" then [rain]
  else if String.eqb m "autumn" then [leaf]
  else if String.eqb m "prewinter" then [mist; dewdrop]
  else [ember; snow].

Lemma rnd_range (u a b : Q) :
  0 <= u -> u < 1 -> a < b -> a <= u * (b - a) + a /\ u * (b - a) + a <= b.
Proof. intros H0 H1 Hab. split; nra. Qed.

Lemma rnd_value (host : Host) (a b : Q) (s : State) :
  eval (rnd host a b) s = Math_random host (rng s) * (b - a) + a
  /\ exec (rnd host a b) s = set_rng (S (rng s)) s.
Proof. split; reflexivity. Qed.

(** The start of [newParticle]: the object literal. *)
Lemma newParticle_object_start (host : Host) (env : Env) (s : State) :
  let v := eval (newParticle_object host env) s in
  Particle.x v = Math_random host (rng s) * (logicalW env - 0) + 0
  /\ Particle.y v = Math_random host (S (rng s)) * (logicalH env + 60 - -60) + -60
  /\ Particle.z v = Math_random host (S (S (S (S (rng s))))) * (1.2 - 0.4) + 0.4.
Proof.
  cbv zeta.
  unfold newParticle_object, rnd, random, bind, gets, ret, eval.
  cbn [fst snd rng mode set_rng].
  repeat match goal with
         | |- context [if ?b then _ else _] => destruct b
         end;
  cbn [fst snd rng mode set_rng Particle.x Particle.y Particle.z
       Particle.set_spin Particle.set_color Particle.set_vy Particle.set_vx
       Particle.set_r Particle.set_type Particle.set_alpha];
  repeat split; reflexivity.
Qed.

Ltac factory_branches :=
  unfold newParticle_object, rnd, random, bind, gets, ret, eval;
  cbn [fst snd rng mode set_rng];
  repeat match goal with
         | |- context [if ?b then _ else _] => destruct b
         end;
  cbn [fst snd rng mode set_rng Particle.x Particle.y Particle.z Particle.vx
       Particle.vy Particle.r Particle.type Particle.alpha
       Particle.set_spin Particle.set_color Particle.set_vy Particle.set_vx
       Particle.set_r Particle.set_type Particle.set_alpha].

(** The kind of a new particle is one of the kinds of the mode. *)
Lemma newParticle_object_kind (host : Host) (env : Env) (s : State) :
  In (Particle.type (eval (newParticle_object host env) s)) (kinds_of (mode s)).
Proof.
  unfold kinds_of. factory_branches; simpl; auto.
Qed.

(** Radius, opacity and vertical velocity of a new particle. *)
Lemma newParticle_object_ranges (host : Host) (env : Env) (s : State) :
  random_unit host ->
  let v := eval (newParticle_object host env) s in
  0.8 <= Particle.r v /\ Particle.r v <= 140
  /\ 0 < Particle.alpha v /\ Particle.alpha v <= 1
  /\ -0.06 <= Particle.vy v /\ Particle.vy v <= 1.4
  /\ (Particle.type v = ember -> Particle.vy v < 0)
  /\ (Particle.type v = petal \/ Particle.type v = leaf \/ Particle.type v = rain
      \/ Particle.type v = dewdrop \/ Particle.type v = snow ->
      0 < Particle.vy v).
Proof.
  intros Hu. cbv zeta.
  pose proof (Hu (S (S (S (S (S (rng s))))))) as [A5 B5].
  pose proof (Hu (S (S (S (S (S (S (rng s)))))))) as [A6 B6].
  pose proof (Hu (S (S (S (S (S (S (S (rng s))))))))) as [A7 B7].
  pose proof (Hu (S (S (S (S (S (S (S (S (rng s)))))))))) as [A8 B8].
  pose proof (Hu (S (S (S (S (S (S (S (S (S (rng s))))))))))) as [A9 B9].
  factory_branches;
    repeat split; try lra;
    try (intro K; discriminate K);
    try (intros [K|[K|[K|[K|K]]]]; discriminate K);
    intros _; lra.
Qed.

(** X1.  A particle from the factory is of one of the kinds of the
    active mode (petal in spring, leaf or dust in summer, rain in
    monsoon, leaf in autumn, mist or dew drop in prewinter, ember or
    snow otherwise); it starts within the width of the surface and
    within 60 units above or below it, with a depth factor between 0.4
    and 1.2, a radius between 0.8 and 140, an opacity in (0, 1] and a
    vertical velocity between -0.06 and 1.4; an ember rises and a
    petal, leaf, rain drop, dew drop or snow flake falls.  The upper
    ends are part of the ranges: [rnd(a, b)] can return [b] itself once
    its product is rounded. *)
Theorem factory_particle (host : Host) (env : Env) (m : string) (v : Particle.t) :
  random_unit host -> made host env m v ->
  In (Particle.type v) (kinds_of m)
  /\ (0 <= Particle.x v /\ Particle.x v <= logicalW env)
  /\ (-60 <= Particle.y v /\ Particle.y v <= logicalH env + 60)
  /\ (0.4 <= Particle.z v /\ Particle.z v <= 1.2)
  /\ (0.8 <= Particle.r v /\ Particle.r v <= 140)
  /\ (0 < Particle.alpha v /\ Particle.alpha v <= 1)
  /\ (-0.06 <= Particle.vy v /\ Particle.vy v <= 1.4)
  /\ (Particle.type v = ember -> Particle.vy v < 0)
  /\ (Particle.type v = petal \/ Particle.type v = leaf \/ Particle.type v = rain
      \/ Particle.type v = dewdrop \/ Particle.type v = snow ->
      0 < Particle.vy v).
Proof.
  intros Hu (s & Hm & ->).
  destruct (newParticle_object_start host env s) as (Hx & Hy & Hz).
  destruct (newParticle_object_ranges host env s Hu)
    as (R1 & R2 & R3 & R4 & R5 & R6 & R7 & R8).
  pose proof (newParticle_object_kind host env s) as Hk. rewrite Hm in Hk.
  pose proof (logicalW_pos env) as HW. pose proof (logicalH_pos env) as HH.
  destruct (Hu (rng s)) as [A0 B0].
  destruct (Hu (S (rng s))) as [A1 B1].
  destruct (Hu (S (S (S (S (rng s)))))) as [A4 B4].
  split; [exact Hk|].
  split; [rewrite Hx; split; nra|].
  split; [rewrite Hy; split; nra|].
  split; [rewrite Hz; split; lra|].
  repeat split; assumption.
Qed.

Lemma factory_particle_witness :
  In (Particle.type (eval (newParticle_object (sample_host false) sample_env)
                       (set_mode "autumn" blank)))
     (kinds_of "autumn").
Proof.
  refine (proj1 (factory_particle (sample_host false) sample_env "autumn" _
                   (sample_random_unit false) _)).
  exists (set_mode "autumn" blank). split; reflexivity.
Defined.

(** ** What every reachable engine satisfies *)












(** ** The life of a ripple *)

(** The drawing loop of the ripples, as [step] runs it. *)
Definition ripple_pass : M unit :=
  rs <- gets ripples ;; ripple_loop (List.length rs).

Lemma ripple_pass_ripples (s : State) :
  ripples (exec ripple_pass s) = aged (ripples s).
Proof.
  unfold ripple_pass. rewrite exec_bind, eval_gets, exec_gets.
  rewrite (ripple_loop_ripples (ripples s) [] s), app_nil_r;
    [reflexivity | rewrite app_nil_r; reflexivity].
Qed.

Lemma aged_single (rp : Ripple.t) :
  aged [rp] = if leb (Ripple.alpha rp - 0.015) 0 then [] else [age rp].
Proof.
  unfold aged. simpl. destruct (leb (Ripple.alpha rp - 0.015) 0); reflexivity.
Qed.

Lemma leb_true_iff (a b : Q) : leb a b = true <-> a <= b.
Proof. unfold leb. apply Qle_bool_iff. Qed.

Lemma ripple_alive (x y : Q) (n : nat) (s : State) :
  ripples s = [Ripple.mk x y 2 0.35] -> (n < 24)%nat ->
  exists rp,
    ripples (Nat.iter n (exec ripple_pass) s) = [rp]
    /\ Ripple.x rp = x /\ Ripple.y rp = y
    /\ Ripple.r rp == 2 + 0.9 * inject_Z (Z.of_nat n)
    /\ Ripple.alpha rp == 0.35 - 0.015 * inject_Z (Z.of_nat n).
Proof.
  intros Hs. induction n as [|n IH]; intro Hn.
  - exists (Ripple.mk x y 2 0.35). simpl. rewrite Hs.
    repeat split; reflexivity.
  - destruct IH as (rp & Hr & Hx & Hy & Hrad & Hal); [lia|].
    simpl Nat.iter. rewrite ripple_pass_ripples, Hr, aged_single.
    assert (Hn1 : inject_Z (Z.of_nat (S n)) == inject_Z (Z.of_nat n) + 1).
    { rewrite Nat2Z.inj_succ. unfold Z.succ. rewrite inject_Z_plus. reflexivity. }
    assert (Hb : inject_Z (Z.of_nat n) <= 22).
    { change 22 with (inject_Z 22). rewrite <- Zle_Qle. lia. }
    destruct (leb (Ripple.alpha rp - 0.015) 0) eqn:E.
    + apply leb_true_iff in E. lra.
    + exists (age rp). unfold age. cbn [Ripple.x Ripple.y Ripple.r Ripple.alpha].
      split; [reflexivity|]. repeat split; try assumption; rewrite Hn1; lra.
Qed.

Lemma ripple_gone (x y : Q) (k : nat) (s : State) :
  ripples s = [Ripple.mk x y 2 0.35] ->
  ripples (Nat.iter (k + 24) (exec ripple_pass) s) = [].
Proof.
  intro Hs. induction k as [|k IH].
  - rewrite Nat.add_0_l.
    destruct (ripple_alive x y 23 s Hs) as (rp & H1 & _ & _ & _ & H5); [lia|].
    replace 24%nat with (S 23) by reflexivity.
    rewrite Nat.iter_succ, ripple_pass_ripples, H1, aged_single.
    destruct (leb (Ripple.alpha rp - 0.015) 0) eqn:E; [reflexivity|].
    exfalso. assert (~ Ripple.alpha rp - 0.015 <= 0).
    { intro H. apply leb_true_iff in H. congruence. }
    assert (H23 : inject_Z (Z.of_nat 23) == 23) by reflexivity.
    rewrite H23 in H5. lra.
  - rewrite Nat.add_succ_l, Nat.iter_succ, ripple_pass_ripples, IH. reflexivity.
Qed.

(** X3.  A ripple lasts 24 ticks.  Added with radius 2 and opacity
    0.35, it is still in the list after the drawing loop has run n
    times, for every n below 24, at the same place, its radius grown to
    2 + 0.9 n and its opacity faded to 0.35 - 0.015 n; the 24th run
    removes it, and it never comes back. *)
Theorem ripple_lifetime (x y : Q) (n : nat) (s : State) :
  ripples s = [Ripple.mk x y 2 0.35] ->
  let sn := Nat.iter n (exec ripple_pass) s in
  ((n < 24)%nat ->
     exists rp,
       ripples sn = [rp] /\ Ripple.x rp = x /\ Ripple.y rp = y
       /\ Ripple.r rp == 2 + 0.9 * inject_Z (Z.of_nat n)
       /\ Ripple.alpha rp == 0.35 - 0.015 * inject_Z (Z.of_nat n)
       /\ 0 < Ripple.alpha rp)
  /\ ((24 <= n)%nat -> ripples sn = []).
Proof.
  intros Hs sn. split.
  - intro Hn. destruct (ripple_alive x y n s Hs Hn) as (rp & H1 & H2 & H3 & H4 & H5).
    exists rp. repeat split; try assumption.
    assert (Hb : inject_Z (Z.of_nat n) <= 23).
    { change 23 with (inject_Z 23). rewrite <- Zle_Qle. lia. }
    lra.
  - intro Hn. unfold sn.
    replace n with ((n - 24) + 24)%nat by lia.
    apply (ripple_gone x y). exact Hs.
Qed.

Lemma ripple_lifetime_witness :
  ripples (Nat.iter 24 (exec ripple_pass)
             (set_ripples [Ripple.mk 100 597 2 0.35] sample_state)) = [].
Proof.
  exact (proj2 (ripple_lifetime 100 597 24
                  (set_ripples [Ripple.mk 100 597 2 0.35] sample_state) eq_refl)
           (le_n 24)).
Defined.

(** ** The flares *)

(** A flare after [drawFlare]: only its phase moves. *)
Definition advance (host : Host) (f : Flare.t) : Flare.t :=
  Flare.mk (Flare.x f) (Flare.y f) (Flare.r f)
    (Flare.t_ f + Flare.speed f * (if prefersReduced host then 0 else 1))
    (Flare.speed f).

Lemma drawFlares_eval (host : Host) (fs : list Flare.t) (s : State) :
  eval (drawFlares host fs) s = map (advance host) fs.
Proof.
  revert s. induction fs as [|f fs IH]; intro s; simpl.
  - reflexivity.
  - rewrite !eval_bind, eval_ret, IH. reflexivity.
Qed.

Lemma before_particles_flares (host : Host) (now : Q) (s : State) :
  flares (exec (before_particles host now) s)
  = if String.eqb (mode s) "summer" then map (advance host) (flares s) else flares s.
Proof.
  unfold before_particles, clearRect.
  repeat (rewrite ?exec_bind, ?exec_modify, ?eval_bind, ?eval_gets, ?exec_gets).
  cbn [mode flares set_canvas set_last].
  destruct (String.eqb (mode s) "summer"); [|reflexivity].
  destruct (flares s) as [|f fs] eqn:E.
  - cbn [List.length Nat.eqb negb andb]. rewrite exec_ret.
    cbn [flares set_canvas set_last map]. exact E.
  - cbn [List.length Nat.eqb negb andb].
    rewrite exec_bind, exec_modify, drawFlares_eval. reflexivity.
Qed.

(** The flares after a tick. *)
Lemma step_flares (host : Host) (env : Env) (now : Q) (s : State) :
  flares (exec (step host env now) s)
  = if running s && String.eqb (mode s) "summer"
    then map (advance host) (flares s) else flares s.
Proof.
  destruct (running s) eqn:Hrun.
  - rewrite (step_running host env now s Hrun).
    set (c := h <- requestAnimationFrame ;; modify (set_rafId (Some h))).
    assert (Hc : forall t, flares (exec c t) = flares t) by (intro; reflexivity).
    rewrite Hc, keeps_ripples_stage, (keeps_particle_loop host) by reflexivity.
    apply before_particles_flares.
  - rewrite (step_paused host env now s Hrun). reflexivity.
Qed.

(** Where the flares are: 2 or 3 of them in summer, none in any other
    mode. *)
Definition flares_ok (s : State) : Prop :=
  if String.eqb (mode s) "summer"
  then List.length (flares s) = 2%nat \/ List.length (flares s) = 3%nat
  else flares s = [].

Lemma flares_ok_same (s t : State) :
  flares t = flares s -> mode t = mode s -> flares_ok s -> flares_ok t.
Proof. intros Hf Hm. unfold flares_ok. rewrite Hf, Hm. tauto. Qed.

Lemma setMode_flares_ok (host : Host) (env : Env) (m : string) (s : State) :
  random_unit host -> flares_ok (exec (setMode host env m) s).
Proof.
  intro Hu. unfold flares_ok. rewrite setMode_mode, setMode_unfold.
  destruct (String.eqb m "summer").
  - apply seeded_flares_count; [exact Hu|reflexivity].
  - rewrite exec_ret. reflexivity.
Qed.

Lemma handle_flares_ok (host : Host) (env : Env) (ev : Event) (s : State) :
  random_unit host -> flares_ok s -> flares_ok (exec (handle host env ev) s).
Proof.
  intros Hu H. destruct ev as [h now| |tnow|m|]; simpl.
  - unfold frame. rewrite exec_bind, eval_gets, exec_gets.
    destruct (existsb (Pos.eqb h) (frames s)); [|rewrite exec_ret; exact H].
    rewrite exec_bind, exec_modify.
    set (s1 := set_frames _ s).
    assert (H1 : flares_ok s1) by (apply (flares_ok_same s); auto).
    clearbody s1. clear H. revert H1.
    unfold flares_ok. rewrite keeps_mode_step, step_flares.
    destruct (String.eqb (mode s1) "summer"); destruct (running s1);
      cbn [andb]; rewrite ?length_map; auto.
  - rewrite pause_exec. apply (flares_ok_same s); auto; destruct (rafId s); reflexivity.
  - rewrite resume_exec.
    destruct (negb (prefersReduced host) && negb (running s)); [|exact H].
    apply (flares_ok_same s); auto.
  - apply setMode_flares_ok. exact Hu.
  - apply (flares_ok_same s); [| |exact H]; apply keeps_reflow; reflexivity.
Qed.

(** X4.  Flares belong to summer.  In every state an engine can reach
    there are 2 or 3 flares when the mode is "summer" and none in any
    other mode.  A tick of a running summer engine leaves each flare
    where it is, with its radius and speed, and advances its phase by
    its speed, or not at all when motion is reduced; any other tick
    leaves the flares as they are. *)
Theorem flares_of_summer (host : Host) (s : State) :
  random_unit host -> reachable host s ->
  flares_ok s
  /\ forall env now,
       let s' := exec (step host env now) s in
       flares s' = (if running s && String.eqb (mode s) "summer"
                    then map (advance host) (flares s) else flares s)
       /\ List.length (flares s') = List.length (flares s)
       /\ (prefersReduced host = true ->
           Forall2 (fun f f' =>
                      Flare.x f' = Flare.x f /\ Flare.y f' = Flare.y f
                      /\ Flare.r f' = Flare.r f /\ Flare.speed f' = Flare.speed f
                      /\ Flare.t_ f' == Flare.t_ f) (flares s) (flares s')).
Proof.
  intros Hu Hreach. split.
  - induction Hreach as [env m tnow s0 H0|env ev s _ IH].
    + pose proof (create_spec host env m tnow s0) as H. cbv zeta in H.
      unfold createParticleEngine.
      repeat (rewrite ?exec_bind, ?eval_bind, ?eval_gets, ?exec_gets, ?exec_modify).
      set (s1 := set_rafId None _).
      set (s2 := exec (setMode host env (mode s1)) s1).
      apply (flares_ok_same s2); try reflexivity.
      apply setMode_flares_ok. exact Hu.
    + apply handle_flares_ok; assumption.
  - intros env now s'. unfold s'. rewrite step_flares.
    split; [reflexivity|]. split.
    + destruct (running s && String.eqb (mode s) "summer");
        [apply length_map|reflexivity].
    + intro Hred.
      destruct (running s && String.eqb (mode s) "summer").
      * induction (flares s) as [|f fs IHf]; simpl; constructor; [|exact IHf].
        unfold advance. cbn [Flare.x Flare.y Flare.r Flare.speed Flare.t_].
        rewrite Hred. repeat split; try reflexivity. ring.
      * induction (flares s) as [|f fs IHf]; constructor; [|exact IHf].
        repeat split; reflexivity.
Qed.

Lemma flares_of_summer_witness :
  flares_ok (exec (createParticleEngine (sample_host true) sample_env "summer" 0) blank).
Proof.
  exact (proj1 (flares_of_summer (sample_host true) _ (sample_random_unit true)
                  (reach_create (sample_host true) sample_env "summer" 0 blank eq_refl))).
Defined.

(** ** What a tick paints *)

















(** * The page around the engine *)

(** ** The clock *)

(** The three [rotate(...deg)] angles [updateClock] gives the hands. *)
Record Hands := mkHands { hourAngle : Q; minuteAngle : Q; secondAngle : Q }.

(** [function updateClock()], from what [now.getHours()],
    [now.getMinutes()] and [now.getSeconds()] return; the texts it
    writes are left out. *)
Definition updateClock (getHours getMinutes getSeconds : Z) : Hands :=
  let hours := Z.rem getHours 12 in
  let minutes := getMinutes in
  let seconds := getSeconds in
  {| hourAngle := inject_Z hours * 30 + inject_Z minutes * 0.5;
     minuteAngle := inject_Z minutes * 6;
     secondAngle := inject_Z seconds * 6 |}.

(** A marker of the dial: whether its class is [hour], and its angle. *)
Record Marker := mkMarker { hour_class : bool; rotate : Q }.

Definition marker (i : Z) : Marker :=
  {| hour_class := Z.eqb (Z.rem i 5) 0; rotate := inject_Z i * 6 |}.

(** [function createClockMarkers()]: the children appended to
    [clockMarkers] by [for (let i = 0; i < 60; i++)]. *)
Definition createClockMarkers : list Marker :=
  map (fun i => marker (Z.of_nat i)) (seq 0 60).

Lemma marker_at (n : Z) :
  (0 <= n < 60)%Z -> nth_error createClockMarkers (Z.to_nat n) = Some (marker n).
Proof.
  intro Hn. unfold createClockMarkers.
  rewrite nth_error_map, (nth_error_nth' _ O) by (rewrite length_seq; lia).
  rewrite seq_nth by lia. simpl. rewrite Z2Nat.id by lia. reflexivity.
Qed.

Lemma marker_in (mk : Marker) :
  In mk createClockMarkers <-> exists i, (0 <= i < 60)%Z /\ mk = marker i.
Proof.
  unfold createClockMarkers. rewrite in_map_iff. split.
  - intros (n & E & Hn). apply in_seq in Hn. exists (Z.of_nat n). split; [lia|auto].
  - intros (i & Hi & E). exists (Z.to_nat i). split.
    + rewrite Z2Nat.id by lia. auto.
    + apply in_seq. lia.
Qed.

Lemma hourAngle_twice (H M S : Z) :
  hourAngle (updateClock H M S) * 2 == inject_Z (60 * Z.rem H 12 + M).
Proof.
  unfold updateClock, hourAngle. rewrite inject_Z_plus, inject_Z_mult.
  change (inject_Z 60) with 60. field.
Qed.

Lemma rotate_twice (i : Z) : rotate (marker i) * 2 == inject_Z (12 * i).
Proof.
  unfold marker, rotate. rewrite inject_Z_mult. change (inject_Z 12) with 12. field.
Qed.

Lemma twice_eq (a b : Q) (m n : Z) :
  a * 2 == inject_Z m -> b * 2 == inject_Z n -> (a == b <-> m = n).
Proof.
  intros Ha Hb. split.
  - intro E. apply inject_Z_injective. rewrite <- Ha, <- Hb, E. reflexivity.
  - intro E. subst n. lra.
Qed.

(** X6.  The hands of the clock.  The hour hand stays within one turn;
    the minute hand and the second hand always point exactly at the
    marker [createClockMarkers] made for that minute or second; the
    hour hand points at a marker of class [hour] exactly on the full
    hour; and the hour hand tells the time of the half day: two times
    with the same hour angle have the same hour modulo 12 and the same
    minute. *)
Theorem clock_hands (H M S : Z) :
  (0 <= H < 24)%Z -> (0 <= M < 60)%Z -> (0 <= S < 60)%Z ->
  let c := updateClock H M S in
  (0 <= hourAngle c /\ hourAngle c < 360)
  /\ (exists mk, nth_error createClockMarkers (Z.to_nat M) = Some mk
                 /\ rotate mk == minuteAngle c)
  /\ (exists mk, nth_error createClockMarkers (Z.to_nat S) = Some mk
                 /\ rotate mk == secondAngle c)
  /\ ((exists mk, In mk createClockMarkers /\ hour_class mk = true
                  /\ rotate mk == hourAngle c) <-> M = 0%Z)
  /\ (forall H' M' S', (0 <= H' < 24)%Z -> (0 <= M' < 60)%Z ->
        hourAngle (updateClock H' M' S') == hourAngle c ->
        Z.rem H' 12 = Z.rem H 12 /\ M' = M).
Proof.
  intros HH HM HS c.
  pose proof (hourAngle_twice H M S) as E2. fold c in E2.
  assert (Hr : (0 <= Z.rem H 12 < 12)%Z).
  { rewrite Z.rem_mod_nonneg by lia. apply Z.mod_pos_bound. lia. }
  split; [|split; [|split; [|split]]].
  - assert (B : 0 <= hourAngle c * 2 /\ hourAngle c * 2 < 720).
    { rewrite E2. change 0 with (inject_Z 0). change 720 with (inject_Z 720).
      rewrite <- Zle_Qle, <- Zlt_Qlt. lia. }
    lra.
  - exists (marker M). split; [apply marker_at; exact HM|reflexivity].
  - exists (marker S). split; [apply marker_at; exact HS|reflexivity].
  - split.
    + intros (mk & Hin & Hc & Hrot). apply marker_in in Hin.
      destruct Hin as (i & Hi & ->).
      apply (twice_eq _ _ _ _ (rotate_twice i) E2) in Hrot.
      unfold marker, hour_class in Hc. apply Z.eqb_eq in Hc.
      rewrite Z.rem_mod_nonneg in Hc by lia.
      apply Z.mod_divide in Hc; [|lia]. destruct Hc as (j & ->). lia.
    + intros ->. exists (marker (5 * Z.rem H 12)). split; [|split].
      * apply marker_in. exists (5 * Z.rem H 12)%Z. split; [lia|reflexivity].
      * unfold marker, hour_class. apply Z.eqb_eq.
        rewrite Z.mul_comm. apply Z.rem_mul. lia.
      * apply (twice_eq _ _ _ _ (rotate_twice _) E2). lia.
  - intros H' M' S' HH' HM' E.
    apply (twice_eq _ _ _ _ (hourAngle_twice H' M' S') E2) in E.
    assert (Hr' : (0 <= Z.rem H' 12 < 12)%Z).
    { rewrite Z.rem_mod_nonneg by lia. apply Z.mod_pos_bound. lia. }
    lia.
Qed.

Lemma clock_hands_witness :
  hourAngle (updateClock 15 0 45) == 90
  /\ (exists mk, In mk createClockMarkers /\ hour_class mk = true
                 /\ rotate mk == hourAngle (updateClock 15 0 45)).
Proof.
  pose proof (clock_hands 15 0 45 ltac:(lia) ltac:(lia) ltac:(lia)) as (_ & _ & _ & Hm & _).
  split; [reflexivity|]. apply Hm. reflexivity.
Defined.

(** ** The size of the canvas *)

Module Surface.
(** [DPR], [logicalW] and [logicalH]. *)
Record t := mk { DPR : Q; logicalW : Q; logicalH : Q }.
End Surface.

(** [function resizeCanvas()]: the three globals it assigns, from
    [window.devicePixelRatio] ([None] where the browser does not
    define it), [window.innerWidth] and [window.innerHeight]. *)
Definition resizeCanvas (devicePixelRatio : option Q) (innerWidth innerHeight : Q)
  : Surface.t :=
  let DPR := Math.max 1 (match devicePixelRatio with
                         | Some d => or_num d 1
                         | None => 1
                         end) in
  let logicalW := Math.max 1 (Math.floor innerWidth) in
  let logicalH := Math.max 1 (Math.floor innerHeight) in
  {| Surface.DPR := DPR;
     Surface.logicalW := logicalW;
     Surface.logicalH := logicalH |}.

(** [canvas.width] and [canvas.height] as [resizeCanvas] sets them.
    The product is a floating-point number when [Math.floor] takes it:
    [double] is the rounding of a number to the floating-point number
    that stands for it. *)
Definition canvas_width (double : Q -> Q) (sf : Surface.t) : Q :=
  Math.max 1 (Math.floor (double (Surface.logicalW sf * Surface.DPR sf))).

Definition canvas_height (double : Q -> Q) (sf : Surface.t) : Q :=
  Math.max 1 (Math.floor (double (Surface.logicalH sf * Surface.DPR sf))).

(** The surface the engine sees after [resizeCanvas]. *)
Definition resized (sf : Surface.t) (env : Env) : Env :=
  {| width := Z.to_pos (Qfloor (Surface.logicalW sf));
     height := Z.to_pos (Qfloor (Surface.logicalH sf));
     mouse := mouse env;
     particlesToggle_checked := particlesToggle_checked env;
     images_leaf1 := images_leaf1 env;
     images_leaf2 := images_leaf2 env |}.

Lemma max_one_floor (a : Q) :
  Math.max 1 (Math.floor a) = inject_Z (Z.pos (Z.to_pos (Qfloor (Math.max 1 (Math.floor a))))).
Proof.
  unfold Math.max, Math.floor.
  destruct (Qle_bool 1 (inject_Z (Qfloor a))) eqn:E.
  - apply Qle_bool_iff in E. change 1 with (inject_Z 1) in E. rewrite <- Zle_Qle in E.
    rewrite Qfloor_Z, Z2Pos.id by lia. reflexivity.
  - reflexivity.
Qed.

Lemma max_one_le (a : Q) : 1 <= Math.max 1 a.
Proof. destruct (max_spec 1 a) as [(H & ->)|(H & ->)]; lra. Qed.

(** The floor of a number that is at least a whole number [l >= 1]. *)
Lemma backing_store (x l : Q) (p : positive) :
  l = inject_Z (Z.pos p) -> l <= x ->
  let c := Math.max 1 (Math.floor x) in
  l <= c /\ x - 1 < c /\ c <= x.
Proof.
  intros El Hx c.
  assert (Hf : (Z.pos p <= Qfloor x)%Z).
  { rewrite <- (Qfloor_Z (Z.pos p)), <- El. apply Qfloor_resp_le. exact Hx. }
  assert (Hc : c = inject_Z (Qfloor x)).
  { unfold c, Math.max, Math.floor.
    destruct (Qle_bool 1 (inject_Z (Qfloor x))) eqn:E; [reflexivity|].
    apply Qle_bool_false in E. change 1 with (inject_Z 1) in E.
    rewrite <- Zlt_Qlt in E. lia. }
  rewrite Hc. split; [|split].
  - rewrite El at 1. rewrite <- Zle_Qle. exact Hf.
  - pose proof (Qlt_floor x) as Hlt.
    rewrite inject_Z_plus in Hlt. change (inject_Z 1) with 1 in Hlt. lra.
  - apply Qfloor_le.
Qed.

Lemma product_above (double : Q -> Q) (l d : Q) (p : positive) :
  (forall a b, a <= b -> double a <= double b) ->
  double l == l -> l = inject_Z (Z.pos p) -> 1 <= d ->
  l <= double (l * d).
Proof.
  intros Hmono Hl El Hd.
  assert (H1 : 1 <= l).
  { rewrite El. change 1 with (inject_Z 1). rewrite <- Zle_Qle. lia. }
  assert (H2 : l <= l * d) by nra.
  apply Hmono in H2. rewrite Hl in H2. exact H2.
Qed.

(** X7.  Whatever the window reports, [resizeCanvas] leaves a pixel
    ratio of at least 1 and logical sizes that are whole numbers of at
    least 1, the ones the engine then works with.  The backing store
    of the canvas is the product of the logical size and the pixel
    ratio, as the floating-point number it is, rounded down: never
    smaller than the logical size.  Rounding to floating point is
    monotone, and leaves the logical sizes as they are, being
    floating-point numbers already. *)
Theorem resizeCanvas_surface (double : Q -> Q) (devicePixelRatio : option Q)
    (innerWidth innerHeight : Q) (env : Env) :
  (forall a b, a <= b -> double a <= double b) ->
  let sf := resizeCanvas devicePixelRatio innerWidth innerHeight in
  double (Surface.logicalW sf) == Surface.logicalW sf ->
  double (Surface.logicalH sf) == Surface.logicalH sf ->
  1 <= Surface.DPR sf
  /\ Surface.logicalW sf = logicalW (resized sf env)
  /\ Surface.logicalH sf = logicalH (resized sf env)
  /\ (Surface.logicalW sf <= canvas_width double sf
      /\ double (Surface.logicalW sf * Surface.DPR sf) - 1 < canvas_width double sf
      /\ canvas_width double sf <= double (Surface.logicalW sf * Surface.DPR sf))
  /\ (Surface.logicalH sf <= canvas_height double sf
      /\ double (Surface.logicalH sf * Surface.DPR sf) - 1 < canvas_height double sf
      /\ canvas_height double sf <= double (Surface.logicalH sf * Surface.DPR sf)).
Proof.
  intros Hmono sf HW HH.
  assert (HD : 1 <= Surface.DPR sf) by apply max_one_le.
  assert (EW : Surface.logicalW sf = logicalW (resized sf env)) by apply max_one_floor.
  assert (EH : Surface.logicalH sf = logicalH (resized sf env)) by apply max_one_floor.
  split; [exact HD|]. split; [exact EW|]. split; [exact EH|]. split.
  - exact (backing_store _ _ _ EW (product_above double _ _ _ Hmono HW EW HD)).
  - exact (backing_store _ _ _ EH (product_above double _ _ _ Hmono HH EH HD)).
Qed.

(** A rounding to try it with: to the nearest quarter. *)
Definition quarter (x : Q) : Q := inject_Z (Qfloor (x * 4 + 0.5)) / 4.

Lemma quarter_monotone (a b : Q) : a <= b -> quarter a <= quarter b.
Proof.
  intro H. unfold quarter.
  assert (H4 : a * 4 + 0.5 <= b * 4 + 0.5) by lra.
  apply Qfloor_resp_le in H4. rewrite Zle_Qle in H4.
  apply Qmult_le_compat_r; [exact H4|]. discriminate.
Qed.

Lemma resizeCanvas_surface_witness :
  let sf := resizeCanvas (Some 1.6999) 1000 700 in
  Surface.logicalW sf <= canvas_width quarter sf
  /\ canvas_width quarter sf == 1700
  /\ Surface.logicalW sf * Surface.DPR sf == 1699.9.
Proof.
  intro sf.
  assert (HW : quarter (Surface.logicalW sf) == Surface.logicalW sf) by reflexivity.
  assert (HH : quarter (Surface.logicalH sf) == Surface.logicalH sf) by reflexivity.
  destruct (resizeCanvas_surface quarter (Some 1.6999) 1000 700 sample_env
              quarter_monotone HW HH) as (_ & _ & _ & (Hle & _) & _).
  split; [exact Hle|]. split; reflexivity.
Defined.

(** ** The seasons, the toggle and the pointer *)

(** [const SEASONS] *)
Definition SEASONS : list string :=
  ["spring"; "summer"; "monsoon"; "autumn"; "winter"; "prewinter"].

(** [Array.prototype.indexOf] on strings: the first index, or [-1]. *)
Fixpoint indexOf_string (a : string) (l : list string) : Z :=
  match l with
  | [] => -1
  | b :: l' => if String.eqb b a then 0
               else let j := indexOf_string a l' in
                    if Z.ltb j 0 then -1 else (j + 1)%Z
  end.

(** [l[i]]: [None] is [undefined]. *)
Definition at_index (l : list string) (i : Z) : option string :=
  if Z.ltb i 0 then None else nth_error l (Z.to_nat i).

(** The script's top-level variables that change after load:
    [activeSeason], the globals the engine reads, and the engine
    [Particle]. *)
Record Page := mkPage {
  activeSeason : string;
  globals : Env;
  engine : State }.

Definition set_checked (b : bool) (env : Env) : Env :=
  {| width := width env; height := height env; mouse := mouse env;
     particlesToggle_checked := b;
     images_leaf1 := images_leaf1 env; images_leaf2 := images_leaf2 env |}.

Definition set_mouse (m : Mouse.t) (env : Env) : Env :=
  {| width := width env; height := height env; mouse := m;
     particlesToggle_checked := particlesToggle_checked env;
     images_leaf1 := images_leaf1 env; images_leaf2 := images_leaf2 env |}.

Definition set_leaf (first loaded : bool) (env : Env) : Env :=
  {| width := width env; height := height env; mouse := mouse env;
     particlesToggle_checked := particlesToggle_checked env;
     images_leaf1 := if first then loaded else images_leaf1 env;
     images_leaf2 := if first then images_leaf2 env else loaded |}.

(** The [mousemove], [mousedown] and [mouseup] listeners. *)
Definition mousemove (clientX clientY : Q) (m : Mouse.t) : Mouse.t :=
  let px := Mouse.x m in
  let py := Mouse.y m in
  Mouse.mk clientX clientY (clientX - px) (clientY - py) (Mouse.down m).

Definition mousedown (m : Mouse.t) : Mouse.t :=
  Mouse.mk (Mouse.x m) (Mouse.y m) (Mouse.vx m) (Mouse.vy m) true.

Definition mouseup (m : Mouse.t) : Mouse.t :=
  Mouse.mk (Mouse.x m) (Mouse.y m) (Mouse.vx m) (Mouse.vy m) false.

Section PageScript.

Variable host : Host.

(** [function setSeason(s)]; the texts and the stored season are left
    out. *)
Definition setSeason (s : string) (pg : Page) : Page :=
  {| activeSeason := s;
     globals := globals pg;
     engine := exec (setMode host (globals pg) s) (engine pg) |}.

(** The click listener of [seasonBtn]; [None] where [setSeason] would
    be called with [undefined]. *)
Definition seasonBtn_click (pg : Page) : option Page :=
  let idx := indexOf_string (activeSeason pg) SEASONS in
  match at_index SEASONS (Z.rem (idx + 1) (Z.of_nat (List.length SEASONS))) with
  | Some s => Some (setSeason s pg)
  | None => None
  end.

(** The change listener of [particlesToggle], once the box shows
    [checked]. *)
Definition particlesToggle_change (checked : bool) (tnow : Q) (pg : Page) : Page :=
  {| activeSeason := activeSeason pg;
     globals := set_checked checked (globals pg);
     engine := if negb checked
               then exec (pause ;;; clearRect) (engine pg)
               else exec (resume host tnow) (engine pg) |}.

(** The timer of the resize listener fires. *)
Definition resize_timer (devicePixelRatio : option Q) (innerWidth innerHeight : Q)
    (pg : Page) : Page :=
  let env := resized (resizeCanvas devicePixelRatio innerWidth innerHeight) (globals pg) in
  {| activeSeason := activeSeason pg;
     globals := env;
     engine := exec (reflow env) (engine pg) |}.

(** What happens on the page once the script has run. *)
Inductive PageEvent :=
  | AnimationFrame (h : positive) (now : Q)
  | SeasonButton
  | SeasonOption (dataset_season : string)
  | ParticlesToggle (checked : bool) (tnow : Q)
  | ResizeTimer (devicePixelRatio : option Q) (innerWidth innerHeight : Q)
  | MouseMove (clientX clientY : Q)
  | MouseDown
  | MouseUp
  | LeafLoaded (first loaded : bool).

Definition with_globals (env : Env) (pg : Page) : Page :=
  {| activeSeason := activeSeason pg; globals := env; engine := engine pg |}.

Definition page_handle (ev : PageEvent) (pg : Page) : option Page :=
  match ev with
  | AnimationFrame h now =>
      Some {| activeSeason := activeSeason pg;
              globals := globals pg;
              engine := exec (frame host (globals pg) h now) (engine pg) |}
  | SeasonButton => seasonBtn_click pg
  | SeasonOption s => Some (setSeason s pg)
  | ParticlesToggle checked tnow => Some (particlesToggle_change checked tnow pg)
  | ResizeTimer d w h => Some (resize_timer d w h pg)
  | MouseMove cx cy =>
      Some (with_globals (set_mouse (mousemove cx cy (mouse (globals pg))) (globals pg)) pg)
  | MouseDown =>
      Some (with_globals (set_mouse (mousedown (mouse (globals pg))) (globals pg)) pg)
  | MouseUp =>
      Some (with_globals (set_mouse (mouseup (mouse (globals pg))) (globals pg)) pg)
  | LeafLoaded first loaded => Some (with_globals (set_leaf first loaded (globals pg)) pg)
  end.

(** The script from top to bottom: the canvas is sized, the engine is
    created for the stored season, [setSeason(activeSeason)] runs, the
    box takes the stored choice and an engine switched off is paused.
    [greet_season] and [particles_on] are what [localStorage.getItem]
    returns, [checked0] is the box as the document has it. *)
Definition load (greet_season particles_on : option string) (checked0 : bool)
    (devicePixelRatio : option Q) (innerWidth innerHeight : Q) (tnow : Q)
    (s0 : State) : Page :=
  let env0 :=
    resized (resizeCanvas devicePixelRatio innerWidth innerHeight)
      {| width := 1; height := 1; mouse := Mouse.mk 0 0 0 0 false;
         particlesToggle_checked := checked0;
         images_leaf1 := false; images_leaf2 := false |} in
  let season := match greet_season with
                | Some s => if String.eqb s "" then "prewinter" else s
                | None => "prewinter"
                end in
  let pg := setSeason season
              {| activeSeason := season; globals := env0;
                 engine := exec (createParticleEngine host env0 season tnow) s0 |} in
  let off := match particles_on with
             | Some v => String.eqb v "off"
             | None => false
             end in
  {| activeSeason := activeSeason pg;
     globals := set_checked (negb off) (globals pg);
     engine := if off then exec pause (engine pg) else engine pg |}.

(** The pages the script and its listeners can produce. *)
Inductive page_reachable : Page -> Prop :=
  | page_loaded (greet_season particles_on : option string) (checked0 : bool)
      (d : option Q) (w h tnow : Q) (s0 : State) :
      frames s0 = [] ->
      page_reachable (load greet_season particles_on checked0 d w h tnow s0)
  | page_event (ev : PageEvent) (pg pg' : Page) :
      page_reachable pg -> page_handle ev pg = Some pg' -> page_reachable pg'.

Fixpoint clicks (n : nat) (pg : Page) : option Page :=
  match n with
  | O => Some pg
  | S n' => match seasonBtn_click pg with
            | Some pg' => clicks n' pg'
            | None => None
            end
  end.

End PageScript.

(** The season the button moves to. *)
Definition next_season (a : string) : option string :=
  at_index SEASONS (Z.rem (indexOf_string a SEASONS + 1) (Z.of_nat (List.length SEASONS))).

Fixpoint seasons_after (n : nat) (a : string) : option string :=
  match n with
  | O => Some a
  | S n' => match next_season a with
            | Some b => seasons_after n' b
            | None => None
            end
  end.

Lemma clicks_season (host : Host) (n : nat) (pg : Page) :
  option_map activeSeason (clicks host n pg) = seasons_after n (activeSeason pg).
Proof.
  revert pg. induction n as [|n IH]; intro pg; [reflexivity|].
  cbn [clicks seasons_after]. unfold seasonBtn_click. fold (next_season (activeSeason pg)).
  destruct (next_season (activeSeason pg)) as [b|]; [|reflexivity].
  rewrite IH. reflexivity.
Qed.

Lemma indexOf_string_absent (a : string) (l : list string) :
  existsb (String.eqb a) l = false -> indexOf_string a l = (-1)%Z.
Proof.
  induction l as [|b l IH]; [reflexivity|].
  cbn [existsb indexOf_string]. intro H. apply orb_false_iff in H. destruct H as (H1 & H2).
  rewrite String.eqb_sym, H1, (IH H2). reflexivity.
Qed.

Lemma existsb_SEASONS (a : string) :
  existsb (String.eqb a) SEASONS = true -> In a SEASONS.
Proof.
  intro H. apply existsb_exists in H. destruct H as (b & Hb & E).
  apply String.eqb_eq in E. subst b. exact Hb.
Qed.

(** X8.  A click on the season button always finds a season to set:
    it is one of [SEASONS], the engine is put in that mode, and it is
    never the season shown before.  From a season of the list, six
    clicks lead back to it and fewer do not; from any other value of
    [activeSeason] the click leads to spring. *)
Theorem season_button_cycle (host : Host) (pg : Page) :
  exists pg',
    seasonBtn_click host pg = Some pg'
    /\ In (activeSeason pg') SEASONS
    /\ mode (engine pg') = activeSeason pg'
    /\ activeSeason pg' <> activeSeason pg
    /\ if existsb (String.eqb (activeSeason pg)) SEASONS
       then option_map activeSeason (clicks host 6 pg) = Some (activeSeason pg)
            /\ forall k, (0 < k < 6)%nat ->
                 option_map activeSeason (clicks host k pg) <> Some (activeSeason pg)
       else activeSeason pg' = "spring".
Proof.
  unfold seasonBtn_click. fold (next_season (activeSeason pg)).
  destruct (existsb (String.eqb (activeSeason pg)) SEASONS) eqn:E.
  - apply existsb_SEASONS in E.
    assert (C : forall k, option_map activeSeason (clicks host k pg)
                          = seasons_after k (activeSeason pg))
      by (intro; apply clicks_season).
    generalize dependent (activeSeason pg). intros a Ha C.
    assert (K : forall (P : nat -> Prop), P 1%nat -> P 2%nat -> P 3%nat -> P 4%nat -> P 5%nat ->
                forall k, (0 < k < 6)%nat -> P k).
    { intros P P1 P2 P3 P4 P5 k Hk.
      destruct k as [|[|[|[|[|[|k]]]]]]; try assumption; lia. }
    simpl in Ha.
    destruct Ha as [<-|[<-|[<-|[<-|[<-|[<-|[]]]]]]];
      (eexists; split; [reflexivity|]; cbn [activeSeason setSeason];
       split; [simpl; tauto|]; split; [apply setMode_mode|];
       split; [discriminate|]; split; [rewrite C; reflexivity|];
       intros k Hk; rewrite C; revert k Hk; apply K; discriminate).
  - unfold next_season. rewrite (indexOf_string_absent _ _ E).
    eexists. split; [reflexivity|]. cbn [activeSeason setSeason].
    split; [simpl; tauto|]. split; [apply setMode_mode|]. split; [|reflexivity].
    intro Heq. rewrite <- Heq in E. discriminate E.
Qed.

(** A tick pauses or resumes nothing. *)
Lemma keeps_running_step (host : Host) (env : Env) (now : Q) :
  keeps running (step host env now).
Proof.
  unfold step, clearRect.
  repeat match goal with
         | |- keeps _ (visit _ _ _ _ _) => apply keeps_visit; reflexivity
         | |- keeps _ (drawFlares _ _) => apply keeps_drawFlares; reflexivity
         | |- keeps _ (ripple_loop _) => apply keeps_ripple_loop; reflexivity
         | |- keeps _ requestAnimationFrame => intro; reflexivity
         | _ => keeps_step
         end.
Qed.

Lemma frame_mode_running (host : Host) (env : Env) (h : positive) (now : Q) (s : State) :
  mode (exec (frame host env h now) s) = mode s
  /\ running (exec (frame host env h now) s) = running s.
Proof.
  unfold frame. rewrite exec_bind, eval_gets, exec_gets.
  destruct (existsb (Pos.eqb h) (frames s)).
  - rewrite exec_bind, exec_modify, keeps_mode_step, keeps_running_step. split; reflexivity.
  - rewrite exec_ret. split; reflexivity.
Qed.

Lemma pause_then_clear (s : State) : exec (pause ;;; clearRect) s = exec pause s.
Proof.
  rewrite exec_bind. unfold clearRect. rewrite exec_modify, pause_exec.
  destruct (rafId s); reflexivity.
Qed.

Lemma pause_mode_running (s : State) :
  mode (exec pause s) = mode s /\ running (exec pause s) = false.
Proof. rewrite pause_exec. destruct (rafId s); split; reflexivity. Qed.

Lemma resume_mode (host : Host) (tnow : Q) (s : State) :
  mode (exec (resume host tnow) s) = mode s.
Proof.
  rewrite resume_exec.
  destruct (negb (prefersReduced host) && negb (running s)); reflexivity.
Qed.

(** What the script keeps true of the page. *)
Definition page_ok (host : Host) (pg : Page) : Prop :=
  reachable host (engine pg)
  /\ mode (engine pg) = activeSeason pg
  /\ (running (engine pg) = true -> particlesToggle_checked (globals pg) = true).

Lemma load_ok (host : Host) (greet_season particles_on : option string) (checked0 : bool)
    (d : option Q) (w h tnow : Q) (s0 : State) :
  frames s0 = [] ->
  page_ok host (load host greet_season particles_on checked0 d w h tnow s0).
Proof.
  intro H0. unfold load, setSeason.
  cbn [activeSeason globals engine].
  set (env0 := resized _ _).
  set (season := match greet_season with Some _ => _ | None => _ end).
  set (off := match particles_on with Some _ => _ | None => _ end).
  set (s1 := exec (createParticleEngine host env0 season tnow) s0).
  assert (R1 : reachable host s1) by (apply reach_create; exact H0).
  set (s2 := exec (setMode host env0 season) s1).
  assert (R2 : reachable host s2) by exact (reach_event host env0 (SetMode season) s1 R1).
  assert (M2 : mode s2 = season) by apply setMode_mode.
  clearbody s2. unfold page_ok. cbn [activeSeason globals engine].
  destruct off.
  - destruct (pause_mode_running s2) as (Pm & Pr).
    split; [exact (reach_event host env0 Pause s2 R2)|].
    split; [congruence|]. intro Hr. congruence.
  - split; [exact R2|]. split; [exact M2|]. intros _. reflexivity.
Qed.

Lemma seasonBtn_click_sets (host : Host) (pg : Page) :
  exists s, seasonBtn_click host pg = Some (setSeason host s pg).
Proof.
  unfold seasonBtn_click.
  destruct (existsb (String.eqb (activeSeason pg)) SEASONS) eqn:E.
  - apply existsb_SEASONS in E. simpl in E.
    destruct E as [<-|[<-|[<-|[<-|[<-|[<-|[]]]]]]]; eexists; reflexivity.
  - rewrite (indexOf_string_absent _ _ E). eexists. reflexivity.
Qed.

Lemma setMode_running (host : Host) (env : Env) (m : string) (s : State) :
  running (exec (setMode host env m) s) = running s.
Proof. apply keeps_setMode; reflexivity. Qed.

Lemma reflow_mode_running (env : Env) (s : State) :
  mode (exec (reflow env) s) = mode s /\ running (exec (reflow env) s) = running s.
Proof. split; apply keeps_reflow; reflexivity. Qed.

Lemma page_handle_ok (host : Host) (ev : PageEvent) (pg pg' : Page) :
  page_ok host pg -> page_handle host ev pg = Some pg' -> page_ok host pg'.
Proof.
  intros (R & Hm & Hc) E. destruct ev; cbn [page_handle] in E.
  - injection E as <-. unfold page_ok. cbn [activeSeason globals engine].
    destruct (frame_mode_running host (globals pg) h now (engine pg)) as (Fm & Fr).
    split; [exact (reach_event host (globals pg) (Frame h now) _ R)|].
    rewrite Fm, Fr. auto.
  - destruct (seasonBtn_click_sets host pg) as (s & Es).
    rewrite Es in E. injection E as <-.
    unfold page_ok, setSeason. cbn [activeSeason globals engine].
    split; [exact (reach_event host (globals pg) (SetMode s) _ R)|].
    split; [apply setMode_mode|].
    rewrite setMode_running. exact Hc.
  - injection E as <-.
    unfold page_ok, setSeason. cbn [activeSeason globals engine].
    split; [exact (reach_event host (globals pg) (SetMode dataset_season) _ R)|].
    split; [apply setMode_mode|].
    rewrite setMode_running. exact Hc.
  - injection E as <-.
    unfold page_ok, particlesToggle_change. cbn [activeSeason globals engine set_checked
      particlesToggle_checked].
    destruct checked; cbn [negb].
    + split; [exact (reach_event host (globals pg) (Resume tnow) _ R)|].
      split; [rewrite resume_mode; exact Hm|]. reflexivity.
    + rewrite pause_then_clear. destruct (pause_mode_running (engine pg)) as (Pm & Pr).
      split; [exact (reach_event host (globals pg) Pause _ R)|].
      split; [congruence|]. intro Hr. congruence.
  - injection E as <-.
    unfold page_ok, resize_timer. cbn [activeSeason globals engine].
    set (env := resized _ _).
    split; [exact (reach_event host env Reflow _ R)|].
    destruct (reflow_mode_running env (engine pg)) as (Fm & Fr).
    rewrite Fm, Fr. auto.
  - injection E as <-. exact (conj R (conj Hm Hc)).
  - injection E as <-. exact (conj R (conj Hm Hc)).
  - injection E as <-. exact (conj R (conj Hm Hc)).
  - injection E as <-. exact (conj R (conj Hm Hc)).
Qed.

(** X9.  On every page the script and its listeners can produce, the
    engine is one the engine's own events produce, its mode is the
    season the page shows, and it runs only while the particles box is
    checked: a tick that moves particles always finds
    [particlesToggle.checked] true, so the reach of the pointer depends
    on the reduced-motion setting alone. *)
Theorem page_invariant (host : Host) (pg : Page) :
  page_reachable host pg ->
  reachable host (engine pg)
  /\ mode (engine pg) = activeSeason pg
  /\ (running (engine pg) = true -> particlesToggle_checked (globals pg) = true)
  /\ (running (engine pg) = true ->
      forall dist, influence host (globals pg) dist
                   = if prefersReduced host then 0 else Math.max 0 (1 - dist / 180)).
Proof.
  intro H.
  assert (Hok : page_ok host pg).
  { induction H as [gs po c0 d w h tnow s0 H0|ev pg pg' _ IH E].
    - apply load_ok. exact H0.
    - exact (page_handle_ok host ev pg pg' IH E). }
  destruct Hok as (R & Hm & Hc).
  split; [exact R|]. split; [exact Hm|]. split; [exact Hc|].
  intros Hr dist. unfold influence. rewrite (Hc Hr).
  destruct (prefersReduced host); reflexivity.
Qed.

Lemma page_invariant_witness :
  let pg := load (sample_host false) (Some "monsoon") (Some "off") true None 800 600 0 blank in
  mode (engine pg) = "monsoon" /\ running (engine pg) <> true.
Proof.
  intro pg.
  destruct (page_invariant (sample_host false) pg
              (page_loaded (sample_host false) (Some "monsoon") (Some "off") true None
                 800 600 0 blank eq_refl)) as (_ & Hm & Hc & _).
  split; [exact Hm|]. intro Hr. apply Hc in Hr. discriminate Hr.
Defined.

(** ** The pointer's button *)

(** The globals with [mouse.down] set. *)
Definition set_down (b : bool) (env : Env) : Env :=
  set_mouse (if b then mousedown (mouse env) else mouseup (mouse env)) env.

Section Button.

Variable host : Host.
Variable env : Env.
Variable b : bool.

Lemma button_W : logicalW (set_down b env) = logicalW env.
Proof. destruct b; reflexivity. Qed.

Lemma button_H : logicalH (set_down b env) = logicalH env.
Proof. destruct b; reflexivity. Qed.

Lemma button_x : Mouse.x (mouse (set_down b env)) = Mouse.x (mouse env).
Proof. destruct b; reflexivity. Qed.

Lemma button_y : Mouse.y (mouse (set_down b env)) = Mouse.y (mouse env).
Proof. destruct b; reflexivity. Qed.

Lemma button_vx : Mouse.vx (mouse (set_down b env)) = Mouse.vx (mouse env).
Proof. destruct b; reflexivity. Qed.

Lemma button_vy : Mouse.vy (mouse (set_down b env)) = Mouse.vy (mouse env).
Proof. destruct b; reflexivity. Qed.

Lemma button_checked :
  particlesToggle_checked (set_down b env) = particlesToggle_checked env.
Proof. destruct b; reflexivity. Qed.

Lemma button_leaf1 : images_leaf1 (set_down b env) = images_leaf1 env.
Proof. destruct b; reflexivity. Qed.

Lemma button_leaf2 : images_leaf2 (set_down b env) = images_leaf2 env.
Proof. destruct b; reflexivity. Qed.

Ltac button_fields :=
  rewrite ?button_W, ?button_H, ?button_x, ?button_y, ?button_vx, ?button_vy,
    ?button_checked, ?button_leaf1, ?button_leaf2.

Lemma button_newParticle :
  newParticle host (set_down b env) = newParticle host env.
Proof. unfold newParticle, newParticle_object. button_fields. reflexivity. Qed.

Lemma button_reflow : reflow (set_down b env) = reflow env.
Proof. unfold reflow, reflow_from, reflow_object. button_fields. reflexivity. Qed.

Lemma button_setMode : setMode host (set_down b env) = setMode host env.
Proof. unfold setMode, init. rewrite button_newParticle. button_fields. reflexivity. Qed.

Lemma button_physics : physics host (set_down b env) = physics host env.
Proof.
  unfold physics, season_forces, mouse_wind, mouse_dist, influence.
  button_fields. reflexivity.
Qed.

Lemma button_visit : visit host (set_down b env) = visit host env.
Proof.
  unfold visit, recycle, offscreen, draw.
  rewrite button_physics, button_newParticle. button_fields. reflexivity.
Qed.

Lemma button_step : step host (set_down b env) = step host env.
Proof. unfold step. rewrite button_visit. reflexivity. Qed.

End Button.

(** X10.  The engine never reads [mouse.down]: whether the button of
    the pointer is pressed or not, every event does the same to the
    engine, and so does its creation. *)
Theorem button_is_ignored (host : Host) (env : Env) (b : bool) :
  (forall ev, handle host (set_down b env) ev = handle host env ev)
  /\ createParticleEngine host (set_down b env) = createParticleEngine host env.
Proof.
  split.
  - intros [h now| |tnow|m|]; cbn [handle].
    + unfold frame. rewrite button_step. reflexivity.
    + reflexivity.
    + reflexivity.
    + rewrite button_setMode. reflexivity.
    + apply button_reflow.
  - unfold createParticleEngine. rewrite button_setMode. reflexivity.
Qed.
